(** * machine.asyncio.plugins.decorators

    A shallow embedding of [src/machine/asyncio/plugins/decorators.py]: the
    decorators that attach a [Metadata] record to a plugin function and the
    [on] decorator that registers a listener on the module-level emitter
    [ee].

    Python objects are mutable and compared by identity, so the embedding
    keeps an explicit store: callables and [Metadata] instances are
    addresses, the attribute [f.metadata] is a pointer into a heap of
    [Metadata] cells, and every decorator is a computation in a small
    state-and-exception monad.  A raising statement keeps the effects of the
    statements that ran before it, exactly as in Python.  A target may be a
    class: reading [f.metadata] follows the class's [__mro__], assigning it
    writes the class's own dictionary. *)

From stdpp Require Import base option list strings gmap fin_maps fin_sets.
From Stdlib Require Import ZArith Ascii String.

Local Open Scope Z_scope.

(** ** Data model *)

(** [re.Pattern]: the source text (Python's [Pattern.pattern]) and the flags
    word the pattern was compiled with. *)
Record Pattern := mkPattern {
  pattern : string;
  flags : Z
}.

(** [re.IGNORECASE], the value of [re.RegexFlag.IGNORECASE]. *)
Definition re_IGNORECASE : Z := 2.

(** [class PluginActions]: three lists, each created empty by its
    [default_factory]. *)
Record PluginActions := mkPluginActions {
  pa_process : list string;
  pa_listen_to : list Pattern;
  pa_respond_to : list Pattern
}.

(** [class Metadata]. *)
Record Metadata := mkMetadata {
  plugin_actions : PluginActions;
  md_required_settings : list string
}.

(** [PluginActions()] and [Metadata()] with every field defaulted. *)
Definition new_PluginActions : PluginActions := mkPluginActions [] [] [].
Definition new_Metadata : Metadata := mkMetadata new_PluginActions [].

(** Identity of a callable object and address of a [Metadata] instance. *)
Definition func := positive.
Definition loc := positive.

(** A target of a decorator: a function, or a class ([required_settings]
    names its target [f_or_cls]).  [fn_metadata] and [fn_dict] are the
    object's own attribute dictionary; [DecoratedPluginFunc] types the
    attribute [metadata] as a [Metadata], so it is kept apart from the other
    attributes, whose values play no role here.  [fn_mro] lists the objects
    attribute lookup consults after the object's own dictionary, in order:
    for a class the rest of its [__mro__], for a function nothing.  It is
    fixed when the object is created. *)
Record FuncObj := mkFuncObj {
  fn_metadata : option loc;
  fn_dict : gmap string Z;
  fn_mro : list func
}.

(** A function nobody has assigned an attribute to. *)
Definition plain_func : FuncObj := mkFuncObj None ∅ [].

(** The store: the attribute dictionaries of the callables (an absent entry
    is a callable without attributes), the heap of [Metadata] instances, and
    the module-level emitter [ee]. *)
Record State := mkState {
  objs : gmap func FuncObj;
  heap : gmap loc Metadata;
  ee : list (string * func)
}.

Definition obj (s : State) (f : func) : FuncObj :=
  default plain_func (objs s !! f).

(** The state at import time: no callable decorated, nothing registered. *)
Definition init : State := mkState ∅ ∅ [].

(** What attribute lookup finds for [metadata] in the classes [f] inherits
    from: the own attribute of the first one that has it. *)
Definition inherited_metadata (s : State) (f : func) : option loc :=
  head (omap (λ c, fn_metadata (obj s c)) (fn_mro (obj s f))).

(** What [f.metadata] evaluates to: the object's own attribute, else the
    inherited one; [None] when the lookup raises [AttributeError]. *)
Definition lookup_metadata (s : State) (f : func) : option loc :=
  match fn_metadata (obj s f) with
  | Some l => Some l
  | None => inherited_metadata s f
  end.

(** The argument of [required_settings].  The annotation allows a list of
    strings or one string; a tuple is what a caller outside the annotation
    may pass and what reaches neither [isinstance] branch. *)
Inductive settings_value :=
| settings_list (l : list string)
| settings_str (s : string)
| settings_tuple (l : list string).

(** ** The state-and-exception monad *)

(** The only exception the module can meet: [re.error], from [re.compile]. *)
Inductive exn :=
| re_error (regex : string) (fl : Z).

Inductive outcome (A : Type) :=
| Return (a : A)
| Raise (e : exn).
Arguments Return {A} a.
Arguments Raise {A} e.

Definition M (A : Type) : Type := State → State * outcome A.

Definition ret {A} (a : A) : M A := λ s, (s, Return a).
Definition raise {A} (e : exn) : M A := λ s, (s, Raise e).
Definition bind {A B} (m : M A) (k : A → M B) : M B :=
  λ s, match m s with
       | (s', Return a) => k a s'
       | (s', Raise e) => (s', Raise e)
       end.

Declare Scope py_scope.
Delimit Scope py_scope with py.
Notation "x <- m ;; k" := (bind m (λ x, k))
  (at level 100, m at next level, right associativity) : py_scope.
Notation "m ;; k" := (bind m (λ _, k))
  (at level 100, right associativity) : py_scope.
Local Open Scope py_scope.

(** The state and the outcome of running a computation. *)
Definition exec {A} (m : M A) (s : State) : State := fst (m s).
Definition result {A} (m : M A) (s : State) : outcome A := snd (m s).

(** ** Primitive statements *)

(** [Metadata()]: a new instance at an address the heap does not use. *)
Definition alloc_Metadata : M loc :=
  λ s, let l := fresh (dom (heap s)) in
       (mkState (objs s) (<[l := new_Metadata]> (heap s)) (ee s), Return l).

(** [getattr(f, "metadata", dflt)]: the lookup follows inheritance. *)
Definition getattr_metadata (f : func) (dflt : loc) : M loc :=
  λ s, (s, Return (default dflt (lookup_metadata s f))).

(** [f.metadata = l]: the assignment writes the object's own dictionary. *)
Definition setattr_metadata (f : func) (l : loc) : M unit :=
  λ s, (mkState
          (<[f := mkFuncObj (Some l) (fn_dict (obj s f)) (fn_mro (obj s f))]>
             (objs s))
          (heap s) (ee s),
        Return tt).

(** In-place mutation of the instance [f.metadata] points to.  The
    decorators only mutate after the assignment above, so the attribute is
    always present when this runs. *)
Definition mutate_metadata (f : func) (g : Metadata → Metadata) : M unit :=
  λ s, match lookup_metadata s f with
       | Some l => (mkState (objs s) (alter g l (heap s)) (ee s), Return tt)
       | None => (s, Return tt)
       end.

(** The statement every metadata decorator starts with,
    [f.metadata = getattr(f, "metadata", Metadata())].  The default is an
    argument, so the instance is built whether or not it is used. *)
Definition attach_metadata (f : func) : M unit :=
  dflt <- alloc_Metadata ;;
  l <- getattr_metadata f dflt ;;
  setattr_metadata f l.

(** The list mutations, [append] and [extend], on each field. *)
Definition append_process (e : string) (m : Metadata) : Metadata :=
  let pa := plugin_actions m in
  mkMetadata
    (mkPluginActions (pa_process pa ++ [e]) (pa_listen_to pa) (pa_respond_to pa))
    (md_required_settings m).

Definition append_listen_to (p : Pattern) (m : Metadata) : Metadata :=
  let pa := plugin_actions m in
  mkMetadata
    (mkPluginActions (pa_process pa) (pa_listen_to pa ++ [p]) (pa_respond_to pa))
    (md_required_settings m).

Definition append_respond_to (p : Pattern) (m : Metadata) : Metadata :=
  let pa := plugin_actions m in
  mkMetadata
    (mkPluginActions (pa_process pa) (pa_listen_to pa) (pa_respond_to pa ++ [p]))
    (md_required_settings m).

Definition extend_required_settings (l : list string) (m : Metadata) : Metadata :=
  mkMetadata (plugin_actions m) (md_required_settings m ++ l).

Definition append_required_settings (x : string) (m : Metadata) : Metadata :=
  mkMetadata (plugin_actions m) (md_required_settings m ++ [x]).

(** Modelled from the spec: [add_listener] of the emitter [ee].  The emitter
    class comes from the pyee package, which is not part of the repository;
    the spec describes it as a registry to which registrations are only
    added, in order and without deduplication. *)
Definition add_listener (event : string) (f : func) : M unit :=
  λ s, (mkState (objs s) (heap s) (ee s ++ [(event, f)]), Return tt).

(** The callables registered for [event], in registration order. *)
Definition listeners (s : State) (event : string) : list func :=
  snd <$> filter (λ r, r.1 = event) (ee s).

(** ** The decorators *)

(** A decorator takes the target and returns it. *)
Definition decorator := func → M func.

Definition process_decorator (slack_event_type : string) : decorator :=
  λ f,
    attach_metadata f ;;
    mutate_metadata f (append_process slack_event_type) ;;
    ret f.

Definition process (slack_event_type : string) : M decorator :=
  ret (process_decorator slack_event_type).

Definition on_decorator (event : string) : decorator :=
  λ f,
    add_listener event f ;;
    ret f.

Definition on (event : string) : M decorator :=
  ret (on_decorator event).

Definition required_settings_decorator (settings : settings_value) : decorator :=
  λ f_or_cls,
    attach_metadata f_or_cls ;;
    match settings with
    | settings_list l =>
        mutate_metadata f_or_cls (extend_required_settings l)
    | settings_str x =>
        mutate_metadata f_or_cls (append_required_settings x)
    | settings_tuple _ => ret tt
    end ;;
    ret f_or_cls.

Definition required_settings (settings : settings_value) : M decorator :=
  ret (required_settings_decorator settings).

(** [@d] applied to [f], for a decorator obtained from its factory. *)
Definition decorate (factory : M decorator) (f : func) : M func :=
  d <- factory ;; d f.

(** The metadata decorators as data: which factory is called, with which
    arguments. *)
Inductive annotation :=
| ann_process (e : string)
| ann_listen_to (r : string) (fl : option Z)
| ann_respond_to (r : string) (fl : option Z)
| ann_required_settings (v : settings_value).

(** A use of the module: a metadata decorator or [on], applied to a target. *)
Inductive call :=
| call_annotate (a : annotation) (f : func)
| call_on (n : string) (f : func).

Section Regex.

(** Whether [re.compile(regex, fl)] accepts the pattern. *)
Variable re_valid : string → Z → bool.

(** Modelled from the spec: [re.compile] belongs to Python's standard
    library, not to the repository.  A pattern that is accepted compiles to
    a [Pattern] carrying the source text and the flags it was given; one
    that is not raises [re.error]. *)
Definition re_compile (regex : string) (fl : Z) : M Pattern :=
  if re_valid regex fl then ret (mkPattern regex fl)
  else raise (re_error regex fl).

(** [f.metadata.plugin_actions.listen_to.append(re.compile(regex, flags))]:
    the argument is evaluated, and may raise, before [append] is called. *)
Definition listen_to_decorator (regex : string) (fl : Z) : decorator :=
  λ f,
    attach_metadata f ;;
    p <- re_compile regex fl ;;
    mutate_metadata f (append_listen_to p) ;;
    ret f.

(** [flags] is optional and defaults to [re.IGNORECASE]. *)
Definition listen_to (regex : string) (fl : option Z) : M decorator :=
  ret (listen_to_decorator regex (default re_IGNORECASE fl)).

Definition respond_to_decorator (regex : string) (fl : Z) : decorator :=
  λ f,
    attach_metadata f ;;
    p <- re_compile regex fl ;;
    mutate_metadata f (append_respond_to p) ;;
    ret f.

Definition respond_to (regex : string) (fl : option Z) : M decorator :=
  ret (respond_to_decorator regex (default re_IGNORECASE fl)).

(** What a regex decorator does to the [Metadata] it works on: it appends
    the compiled pattern when the pattern compiles, and nothing otherwise. *)
Definition listen_to_effect (r : string) (fl : Z) (m : Metadata) : Metadata :=
  if re_valid r fl then append_listen_to (mkPattern r fl) m else m.

Definition respond_to_effect (r : string) (fl : Z) (m : Metadata) : Metadata :=
  if re_valid r fl then append_respond_to (mkPattern r fl) m else m.

Definition annotation_factory (a : annotation) : M decorator :=
  match a with
  | ann_process e => process e
  | ann_listen_to r fl => listen_to r fl
  | ann_respond_to r fl => respond_to r fl
  | ann_required_settings v => required_settings v
  end.

Definition run_call (c : call) : M func :=
  match c with
  | call_annotate a f => decorate (annotation_factory a) f
  | call_on n f => decorate (on n) f
  end.

(** Decorators stacked on one target, applied first to last.  The state is
    carried on after a raising decorator, as for a caller that catches the
    exception. *)
Fixpoint annotate_all (l : list annotation) (f : func) (s : State) : State :=
  match l with
  | [] => s
  | a :: l' => annotate_all l' f (exec (decorate (annotation_factory a) f) s)
  end.

(** Any sequence of uses of the module. *)
Fixpoint run_calls (l : list call) (s : State) : State :=
  match l with
  | [] => s
  | c :: l' => run_calls l' (exec (run_call c) s)
  end.

(** The registrations a sequence of uses asks for, in order. *)
Definition registrations (l : list call) : list (string * func) :=
  omap (λ c, match c with
             | call_on n f => Some (n, f)
             | call_annotate _ _ => None
             end) l.

(** Whether the decorator runs to its [return]: only a pattern that does
    not compile stops it. *)
Definition compiles (a : annotation) : bool :=
  match a with
  | ann_listen_to r fl | ann_respond_to r fl =>
      re_valid r (default re_IGNORECASE fl)
  | ann_process _ | ann_required_settings _ => true
  end.

(** What applying the decorator does to the [Metadata] of its target. *)
Definition effect (a : annotation) (m : Metadata) : Metadata :=
  match a with
  | ann_process e => append_process e m
  | ann_listen_to r fl => listen_to_effect r (default re_IGNORECASE fl) m
  | ann_respond_to r fl => respond_to_effect r (default re_IGNORECASE fl) m
  | ann_required_settings (settings_list l) => extend_required_settings l m
  | ann_required_settings (settings_str x) => append_required_settings x m
  | ann_required_settings (settings_tuple _) => m
  end.

Fixpoint effects (l : list annotation) (m : Metadata) : Metadata :=
  match l with
  | [] => m
  | a :: l' => effects l' (effect a m)
  end.

(** What a stack of decorators is expected to add to each list, read off
    the decorators' arguments: the events of the [process] decorators, the
    patterns of the [listen_to] (resp. [respond_to]) decorators that
    compile, and the names given to [required_settings] as a list or as one
    string, each in the order of application. *)
Definition added_process (l : list annotation) : list string :=
  omap (λ a, match a with
             | ann_process e => Some e
             | _ => None
             end) l.

Definition added_listen_to (l : list annotation) : list Pattern :=
  omap (λ a, match a with
             | ann_listen_to r fl =>
                 if re_valid r (default re_IGNORECASE fl)
                 then Some (mkPattern r (default re_IGNORECASE fl)) else None
             | _ => None
             end) l.

Definition added_respond_to (l : list annotation) : list Pattern :=
  omap (λ a, match a with
             | ann_respond_to r fl =>
                 if re_valid r (default re_IGNORECASE fl)
                 then Some (mkPattern r (default re_IGNORECASE fl)) else None
             | _ => None
             end) l.

Definition added_required_settings (l : list annotation) : list string :=
  l ≫= (λ a, match a with
             | ann_required_settings (settings_list names) => names
             | ann_required_settings (settings_str name) => [name]
             | _ => []
             end).

End Regex.

(** ** Reading the store *)

(** The [Metadata] that [f.metadata] evaluates to, if any. *)
Definition metadata_of (s : State) (f : func) : option Metadata :=
  l ← lookup_metadata s f; heap s !! l.

Definition process_of (s : State) (f : func) : list string :=
  from_option (λ m, pa_process (plugin_actions m)) [] (metadata_of s f).
Definition listen_to_of (s : State) (f : func) : list Pattern :=
  from_option (λ m, pa_listen_to (plugin_actions m)) [] (metadata_of s f).
Definition respond_to_of (s : State) (f : func) : list Pattern :=
  from_option (λ m, pa_respond_to (plugin_actions m)) [] (metadata_of s f).
Definition required_settings_of (s : State) (f : func) : list string :=
  from_option md_required_settings [] (metadata_of s f).

(** The instance [f.metadata] designates once a decorator has run its first
    statement: the one the lookup already found, or else the new one. *)
Definition owner (s : State) (f : func) : loc :=
  default (fresh (dom (heap s))) (lookup_metadata s f).

(** The contents a decorator starts from: those of the instance [f] carries,
    or those of [Metadata()] when [f] carries none. *)
Definition current (s : State) (f : func) : Metadata :=
  default new_Metadata (metadata_of s f).

(** Read or create the [Metadata], mutate it with [g], return the target. *)
Definition annotate (g : Metadata → Metadata) : decorator :=
  λ f, attach_metadata f ;; mutate_metadata f g ;; ret f.

(** Python has no dangling references: an own [metadata] attribute always
    points to a live instance. *)
Definition wf (s : State) : Prop :=
  ∀ f o l, objs s !! f = Some o → fn_metadata o = Some l → is_Some (heap s !! l).

(** A pattern syntax used to run the decorators on concrete inputs: a
    pattern is accepted when its parentheses are balanced. *)
Fixpoint balanced (depth : nat) (r : string) : bool :=
  match r with
  | EmptyString => Nat.eqb depth 0
  | String c r' =>
      if Ascii.eqb c "("%char then balanced (S depth) r'
      else if Ascii.eqb c ")"%char then
             match depth with
             | O => false
             | S d => balanced d r'
             end
      else balanced depth r'
  end.

Definition sample_re_valid (regex : string) (fl : Z) : bool := balanced 0 regex.

(** ** Vocabulary for sequences of decorations *)

(** The list of the [Metadata] a metadata decorator writes to. *)
Inductive field :=
| field_process
| field_listen_to
| field_respond_to
| field_required_settings.

Definition field_of (a : annotation) : field :=
  match a with
  | ann_process _ => field_process
  | ann_listen_to _ _ => field_listen_to
  | ann_respond_to _ _ => field_respond_to
  | ann_required_settings _ => field_required_settings
  end.

(** The metadata decorators a sequence of uses applies to [g], in order. *)
Definition annotations_for (g : func) (l : list call) : list annotation :=
  omap (λ c, match c with
             | call_annotate a f => if decide (f = g) then Some a else None
             | call_on _ _ => None
             end) l.

(** Every list of [m'] starts with the corresponding list of [m]. *)
Definition extends (m m' : Metadata) : Prop :=
  pa_process (plugin_actions m) `prefix_of` pa_process (plugin_actions m') ∧
  pa_listen_to (plugin_actions m) `prefix_of` pa_listen_to (plugin_actions m') ∧
  pa_respond_to (plugin_actions m) `prefix_of` pa_respond_to (plugin_actions m') ∧
  md_required_settings m `prefix_of` md_required_settings m'.

(** No two objects have own [metadata] attributes pointing to the same
    [Metadata] instance. *)
Definition unshared (s : State) : Prop :=
  ∀ f g p,
    fn_metadata (obj s f) = Some p → fn_metadata (obj s g) = Some p → f = g.

(** The metadata decorators of a sequence of uses are all applied to
    objects without bases, such as functions. *)
Definition targets_are_functions (s : State) (l : list call) : Prop :=
  Forall (λ c, match c with
               | call_annotate _ f => fn_mro (obj s f) = []
               | call_on _ _ => True
               end) l.

(** [wf] as a check that runs on a concrete store. *)
Definition live (s : State) (o : FuncObj) : Prop :=
  match fn_metadata o with
  | Some l => is_Some (heap s !! l)
  | None => True
  end.

#[global] Instance live_dec s o : Decision (live s o).
Proof. unfold live. destruct (fn_metadata o); apply _. Defined.

Definition wfb (s : State) : bool :=
  bool_decide (map_Forall (λ _ o, live s o) (objs s)).

(** Two stores to run the decorators on: callable 1 decorated once, and the
    same store after [g.metadata = f.metadata] made callable 2 point to the
    instance of callable 1. *)
Definition sample_decorated : State :=
  exec (decorate (process "message") 1%positive) init.


(** A store with two classes, neither decorated: class 2 derives from
    class 1, class 1 has no bases. *)
Definition sample_hierarchy : State :=
  mkState {[2%positive := mkFuncObj None ∅ [1%positive]]} ∅ [].

(** The store [sample_hierarchy] after [required_settings] was applied to
    class 1: class 2 now inherits the [Metadata] of class 1. *)
Definition sample_base_decorated : State :=
  exec (decorate (required_settings (settings_list ["A"%string])) 1%positive)
    sample_hierarchy.

(** A store with three classes: class 3 derives from classes 2 and 1, in
    that order, which have no bases; class 1 has been decorated. *)
Definition sample_diamond : State :=
  exec (decorate (process "message") 1%positive)
    (mkState {[3%positive := mkFuncObj None ∅ [2%positive; 1%positive]]} ∅ []).

(** ** Reasoning about the primitive statements *)

Lemma wf_init : wf init.
Proof. intros f o l Hf. simpl in Hf. by rewrite lookup_empty in Hf. Qed.

Lemma obj_metadata_Some s f l :
  fn_metadata (obj s f) = Some l →
  ∃ o, objs s !! f = Some o ∧ fn_metadata o = Some l.
Proof.
  unfold obj. destruct (objs s !! f) as [o|]; simpl; [eauto | done].
Qed.

Lemma wf_metadata s f l :
  wf s → fn_metadata (obj s f) = Some l → is_Some (heap s !! l).
Proof.
  intros Hwf Hl. destruct (obj_metadata_Some _ _ _ Hl) as (o & Ho & Hm).
  by eapply Hwf.
Qed.

(** An own attribute is what the lookup finds. *)
Lemma lookup_own s f l :
  fn_metadata (obj s f) = Some l → lookup_metadata s f = Some l.
Proof. unfold lookup_metadata. by intros ->. Qed.

(** A function, having nothing to inherit from, has only its own
    attribute. *)
Lemma lookup_function s f :
  fn_mro (obj s f) = [] → lookup_metadata s f = fn_metadata (obj s f).
Proof.
  intros Hmro. unfold lookup_metadata, inherited_metadata. rewrite Hmro.
  by destruct (fn_metadata (obj s f)).
Qed.

(** Whatever the lookup finds is the own attribute of some object. *)
Lemma lookup_source s f l :
  lookup_metadata s f = Some l → ∃ c, fn_metadata (obj s c) = Some l.
Proof.
  unfold lookup_metadata, inherited_metadata.
  destruct (fn_metadata (obj s f)) as [l'|] eqn:Hown.
  - intros [= <-]. eauto.
  - intros Hh. apply head_Some in Hh as [rest Hrest].
    assert (Hin : l ∈ omap (λ c, fn_metadata (obj s c)) (fn_mro (obj s f)))
      by (rewrite Hrest; left).
    apply list_elem_of_omap in Hin as (c & _ & Hc). eauto.
Qed.

Lemma wf_lookup s f l :
  wf s → lookup_metadata s f = Some l → is_Some (heap s !! l).
Proof.
  intros Hwf Hl. destruct (lookup_source _ _ _ Hl) as [c Hc].
  by eapply wf_metadata.
Qed.

Lemma fresh_heap_None s : heap s !! fresh (dom (heap s)) = None.
Proof. apply not_elem_of_dom, is_fresh. Qed.

Lemma attach_run s f :
  attach_metadata f s = (exec (attach_metadata f) s, Return tt).
Proof. reflexivity. Qed.

Lemma attach_objs s f :
  objs (exec (attach_metadata f) s)
  = <[f := mkFuncObj (Some (owner s f)) (fn_dict (obj s f)) (fn_mro (obj s f))]>
      (objs s).
Proof. reflexivity. Qed.

Lemma attach_heap s f :
  heap (exec (attach_metadata f) s)
  = <[fresh (dom (heap s)) := new_Metadata]> (heap s).
Proof. reflexivity. Qed.

Lemma attach_ee s f : ee (exec (attach_metadata f) s) = ee s.
Proof. reflexivity. Qed.

Lemma attach_fn_metadata s f :
  fn_metadata (obj (exec (attach_metadata f) s) f) = Some (owner s f).
Proof. unfold obj. by rewrite attach_objs, lookup_insert_eq. Qed.

Lemma attach_lookup s f :
  lookup_metadata (exec (attach_metadata f) s) f = Some (owner s f).
Proof. apply lookup_own, attach_fn_metadata. Qed.

Lemma attach_fn_dict s f :
  fn_dict (obj (exec (attach_metadata f) s) f) = fn_dict (obj s f).
Proof. unfold obj at 1. by rewrite attach_objs, lookup_insert_eq. Qed.

Lemma attach_fn_mro s f g :
  fn_mro (obj (exec (attach_metadata f) s) g) = fn_mro (obj s g).
Proof.
  unfold obj at 1. rewrite attach_objs.
  destruct (decide (f = g)) as [->|Hne].
  - by rewrite lookup_insert_eq.
  - by rewrite lookup_insert_ne.
Qed.

Lemma attach_obj_other s f g :
  g ≠ f → obj (exec (attach_metadata f) s) g = obj s g.
Proof. intros Hne. unfold obj. by rewrite attach_objs, lookup_insert_ne. Qed.

Lemma attach_heap_old s f l :
  is_Some (heap s !! l) → heap (exec (attach_metadata f) s) !! l = heap s !! l.
Proof.
  intros Hl. rewrite attach_heap, lookup_insert_ne; [done|].
  intros <-. rewrite fresh_heap_None in Hl. by destruct Hl.
Qed.

Lemma attach_wf s f : wf s → wf (exec (attach_metadata f) s).
Proof.
  intros Hwf g o l. rewrite attach_objs, attach_heap.
  destruct (decide (f = g)) as [->|Hne].
  - rewrite lookup_insert_eq. intros [= <-]; simpl. intros [= <-].
    unfold owner. destruct (lookup_metadata s g) as [l|] eqn:Hm; simpl.
    + rewrite lookup_insert_is_Some'. right. by eapply wf_lookup.
    + rewrite lookup_insert_eq. eauto.
  - rewrite lookup_insert_ne by done. intros Ho Hm.
    pose proof (Hwf _ _ _ Ho Hm) as Hl.
    rewrite lookup_insert_is_Some'. by right.
Qed.

Lemma attach_metadata_of s f :
  wf s → metadata_of (exec (attach_metadata f) s) f = Some (current s f).
Proof.
  intros Hwf. unfold metadata_of at 1. rewrite attach_lookup.
  change (heap (exec (attach_metadata f) s) !! owner s f = Some (current s f)).
  unfold current, metadata_of, owner.
  destruct (lookup_metadata s f) as [l|] eqn:Hm.
  - destruct (wf_lookup _ _ _ Hwf Hm) as [m Hl].
    change (heap (exec (attach_metadata f) s) !! l
            = Some (default new_Metadata (heap s !! l))).
    rewrite attach_heap_old by eauto. by rewrite Hl.
  - rewrite attach_heap. apply lookup_insert_eq.
Qed.

Lemma mutate_run s f g :
  mutate_metadata f g s = (exec (mutate_metadata f g) s, Return tt).
Proof. unfold exec, mutate_metadata. by destruct (lookup_metadata s f). Qed.

Lemma mutate_objs s f g : objs (exec (mutate_metadata f g) s) = objs s.
Proof. unfold exec, mutate_metadata. by destruct (lookup_metadata s f). Qed.

Lemma mutate_obj s f g h : obj (exec (mutate_metadata f g) s) h = obj s h.
Proof. unfold obj. by rewrite mutate_objs. Qed.

Lemma mutate_lookup s f g h :
  lookup_metadata (exec (mutate_metadata f g) s) h = lookup_metadata s h.
Proof.
  unfold lookup_metadata, inherited_metadata. rewrite mutate_obj.
  destruct (fn_metadata (obj s h)); [done|]. f_equal.
  apply list_omap_ext. apply Forall2_same_length_lookup. split; [done|].
  intros i c c' Hc Hc'. rewrite Hc in Hc'. injection Hc' as <-.
  by rewrite mutate_obj.
Qed.

Lemma mutate_ee s f g : ee (exec (mutate_metadata f g) s) = ee s.
Proof. unfold exec, mutate_metadata. by destruct (lookup_metadata s f). Qed.

Lemma mutate_heap s f g l :
  lookup_metadata s f = Some l →
  heap (exec (mutate_metadata f g) s) = alter g l (heap s).
Proof. intros Hm. unfold exec, mutate_metadata. by rewrite Hm. Qed.

Lemma mutate_wf s f g : wf s → wf (exec (mutate_metadata f g) s).
Proof.
  intros Hwf h o l. rewrite mutate_objs. intros Ho Hm.
  pose proof (Hwf _ _ _ Ho Hm) as Hl.
  unfold exec, mutate_metadata.
  destruct (lookup_metadata s f) as [l'|]; simpl; [|done].
  rewrite lookup_alter_is_Some. done.
Qed.

Lemma mutate_metadata_of s f g :
  metadata_of (exec (mutate_metadata f g) s) f = g <$> metadata_of s f.
Proof.
  unfold metadata_of. rewrite mutate_lookup.
  destruct (lookup_metadata s f) as [l|] eqn:Hm; simpl; [|done].
  rewrite (mutate_heap _ _ _ _ Hm). apply lookup_alter_eq.
Qed.

(** ** Sequencing *)

Lemma exec_bind {A B} (m : M A) (k : A → M B) s a :
  result m s = Return a → exec (bind m k) s = exec (k a) (exec m s).
Proof.
  unfold result, exec, bind. destruct (m s) as [s' [a'|e]]; simpl; [|done].
  by intros [= ->].
Qed.

Lemma result_bind {A B} (m : M A) (k : A → M B) s a :
  result m s = Return a → result (bind m k) s = result (k a) (exec m s).
Proof.
  unfold result, exec, bind. destruct (m s) as [s' [a'|e]]; simpl; [|done].
  by intros [= ->].
Qed.

Lemma exec_bind_Raise {A B} (m : M A) (k : A → M B) s e :
  result m s = Raise e → exec (bind m k) s = exec m s.
Proof.
  unfold result, exec, bind. by destruct (m s) as [s' [a'|e']].
Qed.

Lemma result_bind_Raise {A B} (m : M A) (k : A → M B) s e :
  result m s = Raise e → result (bind m k) s = Raise e.
Proof.
  unfold result, exec, bind. destruct (m s) as [s' [a'|e']]; simpl; [done|].
  by intros [= ->].
Qed.

(** ** The idiom shared by the metadata decorators *)

Lemma annotate_run g f s :
  annotate g f s
  = (exec (mutate_metadata f g) (exec (attach_metadata f) s), Return f).
Proof.
  unfold annotate, bind. rewrite attach_run, mutate_run. reflexivity.
Qed.

Lemma annotate_result g f s : result (annotate g f) s = Return f.
Proof. unfold result. by rewrite annotate_run. Qed.

Lemma annotate_exec g f s :
  exec (annotate g f) s = exec (mutate_metadata f g) (exec (attach_metadata f) s).
Proof. unfold exec at 1. by rewrite annotate_run. Qed.

Lemma annotate_wf g f s : wf s → wf (exec (annotate g f) s).
Proof. intros Hwf. rewrite annotate_exec. by apply mutate_wf, attach_wf. Qed.

Lemma annotate_metadata_of g f s :
  wf s → metadata_of (exec (annotate g f) s) f = Some (g (current s f)).
Proof.
  intros Hwf. rewrite annotate_exec, mutate_metadata_of.
  by rewrite attach_metadata_of.
Qed.

Lemma annotate_fn_metadata g f s :
  fn_metadata (obj (exec (annotate g f) s) f) = Some (owner s f).
Proof. rewrite annotate_exec, mutate_obj. apply attach_fn_metadata. Qed.

Lemma annotate_fn_dict g f s :
  fn_dict (obj (exec (annotate g f) s) f) = fn_dict (obj s f).
Proof. rewrite annotate_exec, mutate_obj. apply attach_fn_dict. Qed.

Lemma annotate_ee g f s : ee (exec (annotate g f) s) = ee s.
Proof. rewrite annotate_exec, mutate_ee. apply attach_ee. Qed.

Lemma annotate_current g f s :
  wf s → current (exec (annotate g f) s) f = g (current s f).
Proof. intros Hwf. unfold current at 1. by rewrite annotate_metadata_of. Qed.

(** The four lists of a callable, read through [current]. *)
Lemma process_of_current s f :
  process_of s f = pa_process (plugin_actions (current s f)).
Proof. unfold process_of, current. by destruct (metadata_of s f). Qed.

Lemma listen_to_of_current s f :
  listen_to_of s f = pa_listen_to (plugin_actions (current s f)).
Proof. unfold listen_to_of, current. by destruct (metadata_of s f). Qed.

Lemma respond_to_of_current s f :
  respond_to_of s f = pa_respond_to (plugin_actions (current s f)).
Proof. unfold respond_to_of, current. by destruct (metadata_of s f). Qed.

Lemma required_settings_of_current s f :
  required_settings_of s f = md_required_settings (current s f).
Proof. unfold required_settings_of, current. by destruct (metadata_of s f). Qed.

Lemma process_of_Some s f m :
  metadata_of s f = Some m → process_of s f = pa_process (plugin_actions m).
Proof. unfold process_of. by intros ->. Qed.

Lemma listen_to_of_Some s f m :
  metadata_of s f = Some m → listen_to_of s f = pa_listen_to (plugin_actions m).
Proof. unfold listen_to_of. by intros ->. Qed.

Lemma respond_to_of_Some s f m :
  metadata_of s f = Some m → respond_to_of s f = pa_respond_to (plugin_actions m).
Proof. unfold respond_to_of. by intros ->. Qed.

Lemma required_settings_of_Some s f m :
  metadata_of s f = Some m → required_settings_of s f = md_required_settings m.
Proof. unfold required_settings_of. by intros ->. Qed.

(** ** [process] *)

Lemma process_decorator_annotate e f :
  decorate (process e) f = annotate (append_process e) f.
Proof. reflexivity. Qed.

(** C1.  Applying the decorator returned by [process e] to any callable
    returns that callable and leaves its process list equal to the previous
    list followed by [e], whatever the string [e]; applied twice with
    ["message"] to a callable whose process list is empty, it yields
    [["message"; "message"]]. *)
Theorem process_appends_event (s : State) (f : func) :
  wf s →
  (∀ e : string,
      result (decorate (process e) f) s = Return f ∧
      process_of (exec (decorate (process e) f) s) f = process_of s f ++ [e]) ∧
  (process_of s f = [] →
   process_of (exec (decorate (process "message") f ;;
                     decorate (process "message") f) s) f
   = ["message"; "message"]%string).
Proof.
  intros Hwf.
  assert (Hone : ∀ s0 e, wf s0 →
            process_of (exec (decorate (process e) f) s0) f
            = process_of s0 f ++ [e]).
  { intros s0 e Hwf0. rewrite process_decorator_annotate.
    rewrite (process_of_Some _ _ _ (annotate_metadata_of _ _ _ Hwf0)).
    by rewrite process_of_current. }
  split.
  - intros e. split; [|by apply Hone].
    rewrite process_decorator_annotate. apply annotate_result.
  - intros Hnil.
    rewrite (exec_bind _ _ _ f)
      by (rewrite process_decorator_annotate; apply annotate_result).
    rewrite Hone, Hone, Hnil; [done|done|].
    rewrite process_decorator_annotate. by apply annotate_wf.
Qed.

Lemma process_appends_event_witness :
  wf init ∧
  process_of (exec (decorate (process "message") 1%positive ;;
                    decorate (process "message") 1%positive) init) 1%positive
  = ["message"; "message"]%string.
Proof.
  split; [exact wf_init|].
  apply (process_appends_event init 1%positive wf_init). reflexivity.
Defined.

(** ** [required_settings] *)

Lemma required_settings_list_annotate l f :
  decorate (required_settings (settings_list l)) f
  = annotate (extend_required_settings l) f.
Proof. reflexivity. Qed.

Lemma required_settings_str_annotate x f :
  decorate (required_settings (settings_str x)) f
  = annotate (append_required_settings x) f.
Proof. reflexivity. Qed.

Lemma required_settings_tuple_run l f s :
  decorate (required_settings (settings_tuple l)) f s
  = (exec (attach_metadata f) s, Return f).
Proof. reflexivity. Qed.

(** C5.  [required_settings] given a list appends its names, in order, to
    the end of the target's required settings, and given one string appends
    that string, keeping whatever was there (duplicates included);
    [required_settings(["A","B"])] followed by [required_settings("C")] on a
    target without required settings yields [["A"; "B"; "C"]]. *)
Theorem required_settings_appends_names (s : State) (f : func) :
  wf s →
  (∀ l : list string,
      result (decorate (required_settings (settings_list l)) f) s = Return f ∧
      required_settings_of
        (exec (decorate (required_settings (settings_list l)) f) s) f
      = required_settings_of s f ++ l) ∧
  (∀ x : string,
      result (decorate (required_settings (settings_str x)) f) s = Return f ∧
      required_settings_of
        (exec (decorate (required_settings (settings_str x)) f) s) f
      = required_settings_of s f ++ [x]) ∧
  (required_settings_of s f = [] →
   required_settings_of
     (exec (decorate (required_settings (settings_list ["A"; "B"]%string)) f ;;
            decorate (required_settings (settings_str "C")) f) s) f
   = ["A"; "B"; "C"]%string).
Proof.
  intros Hwf.
  assert (Hlist : ∀ s0 l, wf s0 →
            required_settings_of
              (exec (decorate (required_settings (settings_list l)) f) s0) f
            = required_settings_of s0 f ++ l).
  { intros s0 l Hwf0. rewrite required_settings_list_annotate.
    rewrite (required_settings_of_Some _ _ _ (annotate_metadata_of _ _ _ Hwf0)).
    by rewrite required_settings_of_current. }
  assert (Hstr : ∀ s0 x, wf s0 →
            required_settings_of
              (exec (decorate (required_settings (settings_str x)) f) s0) f
            = required_settings_of s0 f ++ [x]).
  { intros s0 x Hwf0. rewrite required_settings_str_annotate.
    rewrite (required_settings_of_Some _ _ _ (annotate_metadata_of _ _ _ Hwf0)).
    by rewrite required_settings_of_current. }
  split; [|split].
  - intros l. split; [|by apply Hlist].
    rewrite required_settings_list_annotate. apply annotate_result.
  - intros x. split; [|by apply Hstr].
    rewrite required_settings_str_annotate. apply annotate_result.
  - intros Hnil.
    rewrite (exec_bind _ _ _ f)
      by (rewrite required_settings_list_annotate; apply annotate_result).
    rewrite Hstr, Hlist, Hnil; [done|done|].
    rewrite required_settings_list_annotate. by apply annotate_wf.
Qed.

Lemma required_settings_appends_names_witness :
  wf init ∧
  required_settings_of
    (exec (decorate (required_settings (settings_list ["A"; "B"]%string))
             2%positive ;;
           decorate (required_settings (settings_str "C")) 2%positive) init)
    2%positive
  = ["A"; "B"; "C"]%string.
Proof.
  split; [exact wf_init|].
  apply (required_settings_appends_names init 2%positive wf_init). reflexivity.
Defined.

(** C10.  [required_settings] given a tuple raises nothing and returns the
    target; the target carries a [Metadata] afterwards (the instance it had,
    with its contents untouched, or a new empty one), and its required
    settings are what they were. *)
Theorem required_settings_drops_tuple (s : State) (f : func) (l : list string) :
  wf s →
  let s' := exec (decorate (required_settings (settings_tuple l)) f) s in
  result (decorate (required_settings (settings_tuple l)) f) s = Return f ∧
  fn_metadata (obj s' f) = Some (owner s f) ∧
  metadata_of s' f = Some (current s f) ∧
  (lookup_metadata s f = None →
   heap s !! owner s f = None ∧ metadata_of s' f = Some new_Metadata) ∧
  required_settings_of s' f = required_settings_of s f.
Proof.
  intros Hwf s'.
  assert (Hs' : s' = exec (attach_metadata f) s) by reflexivity.
  split; [reflexivity|]. rewrite Hs'.
  split; [apply attach_fn_metadata|].
  split; [by apply attach_metadata_of|].
  split.
  - intros Hnone. split.
    + unfold owner. rewrite Hnone. apply fresh_heap_None.
    + rewrite attach_metadata_of by done. unfold current, metadata_of.
      by rewrite Hnone.
  - rewrite (required_settings_of_Some _ _ _ (attach_metadata_of _ _ Hwf)).
    by rewrite required_settings_of_current.
Qed.

Lemma required_settings_drops_tuple_witness :
  wf init ∧
  metadata_of
    (exec (decorate (required_settings (settings_tuple ["A"; "B"]%string))
             3%positive) init) 3%positive
  = Some new_Metadata.
Proof.
  split; [exact wf_init|].
  apply (required_settings_drops_tuple init 3%positive ["A"; "B"]%string wf_init).
  reflexivity.
Defined.

(** ** [on] *)

Lemma on_run n f s :
  decorate (on n) f s
  = (mkState (objs s) (heap s) (ee s ++ [(n, f)]), Return f).
Proof. reflexivity. Qed.

Lemma listeners_snoc s s' n m f :
  ee s' = ee s ++ [(m, f)] →
  listeners s' n = listeners s n ++ (if decide (m = n) then [f] else []).
Proof.
  intros Hee. unfold listeners. rewrite Hee, filter_app, fmap_app.
  f_equal. rewrite filter_cons. simpl.
  destruct (decide (m = n)); by rewrite filter_nil.
Qed.

(** C6.  The decorator returned by [on n] registers the target for [n] on
    the emitter and returns the target; the attribute dictionaries of all
    callables and the heap of [Metadata] instances are left as they were, so
    no [metadata] is attached and no attribute changes. *)
Theorem on_registers_and_returns_target (s : State) (f : func) (n : string) :
  let s' := exec (decorate (on n) f) s in
  result (decorate (on n) f) s = Return f ∧
  ee s' = ee s ++ [(n, f)] ∧
  listeners s' n = listeners s n ++ [f] ∧
  objs s' = objs s ∧
  heap s' = heap s ∧
  obj s' f = obj s f ∧
  metadata_of s' f = metadata_of s f.
Proof.
  intros s'. repeat split; try reflexivity.
  rewrite (listeners_snoc s s' n n f) by reflexivity.
  by rewrite decide_True.
Qed.

(** ** [listen_to] and [respond_to] *)

Section RegexDecorators.

Variable re_valid : string → Z → bool.

Lemma listen_to_decorator_valid r fl f s :
  re_valid r fl = true →
  listen_to_decorator re_valid r fl f s
  = annotate (append_listen_to (mkPattern r fl)) f s.
Proof.
  intros Hv. unfold listen_to_decorator, annotate, bind, re_compile.
  by rewrite attach_run, Hv.
Qed.

Lemma listen_to_decorator_invalid r fl f s :
  re_valid r fl = false →
  listen_to_decorator re_valid r fl f s
  = (exec (attach_metadata f) s, Raise (re_error r fl)).
Proof.
  intros Hv. unfold listen_to_decorator, bind, re_compile.
  by rewrite attach_run, Hv.
Qed.

Lemma respond_to_decorator_valid r fl f s :
  re_valid r fl = true →
  respond_to_decorator re_valid r fl f s
  = annotate (append_respond_to (mkPattern r fl)) f s.
Proof.
  intros Hv. unfold respond_to_decorator, annotate, bind, re_compile.
  by rewrite attach_run, Hv.
Qed.

Lemma respond_to_decorator_invalid r fl f s :
  re_valid r fl = false →
  respond_to_decorator re_valid r fl f s
  = (exec (attach_metadata f) s, Raise (re_error r fl)).
Proof.
  intros Hv. unfold respond_to_decorator, bind, re_compile.
  by rewrite attach_run, Hv.
Qed.

Lemma listen_to_decorate r fl f s :
  decorate (listen_to re_valid r fl) f s
  = listen_to_decorator re_valid r (default re_IGNORECASE fl) f s.
Proof. reflexivity. Qed.

Lemma respond_to_decorate r fl f s :
  decorate (respond_to re_valid r fl) f s
  = respond_to_decorator re_valid r (default re_IGNORECASE fl) f s.
Proof. reflexivity. Qed.

Lemma listen_to_decorator_wf r fl f s :
  wf s → wf (exec (listen_to_decorator re_valid r fl f) s).
Proof.
  intros Hwf. unfold exec. destruct (re_valid r fl) eqn:Hv.
  - rewrite listen_to_decorator_valid by done. by apply annotate_wf.
  - rewrite listen_to_decorator_invalid by done. by apply attach_wf.
Qed.

Lemma respond_to_decorator_wf r fl f s :
  wf s → wf (exec (respond_to_decorator re_valid r fl f) s).
Proof.
  intros Hwf. unfold exec. destruct (re_valid r fl) eqn:Hv.
  - rewrite respond_to_decorator_valid by done. by apply annotate_wf.
  - rewrite respond_to_decorator_invalid by done. by apply attach_wf.
Qed.

Lemma listen_to_decorator_metadata_of r fl f s :
  wf s →
  metadata_of (exec (listen_to_decorator re_valid r fl f) s) f
  = Some (listen_to_effect re_valid r fl (current s f)).
Proof.
  intros Hwf. unfold exec, listen_to_effect. destruct (re_valid r fl) eqn:Hv.
  - rewrite listen_to_decorator_valid by done. by apply annotate_metadata_of.
  - rewrite listen_to_decorator_invalid by done. by apply attach_metadata_of.
Qed.

Lemma respond_to_decorator_metadata_of r fl f s :
  wf s →
  metadata_of (exec (respond_to_decorator re_valid r fl f) s) f
  = Some (respond_to_effect re_valid r fl (current s f)).
Proof.
  intros Hwf. unfold exec, respond_to_effect. destruct (re_valid r fl) eqn:Hv.
  - rewrite respond_to_decorator_valid by done. by apply annotate_metadata_of.
  - rewrite respond_to_decorator_invalid by done. by apply attach_metadata_of.
Qed.

Lemma listen_to_decorator_fn_metadata r fl f s :
  fn_metadata (obj (exec (listen_to_decorator re_valid r fl f) s) f)
  = Some (owner s f).
Proof.
  unfold exec. destruct (re_valid r fl) eqn:Hv.
  - rewrite listen_to_decorator_valid by done. apply annotate_fn_metadata.
  - rewrite listen_to_decorator_invalid by done. apply attach_fn_metadata.
Qed.

Lemma respond_to_decorator_fn_metadata r fl f s :
  fn_metadata (obj (exec (respond_to_decorator re_valid r fl f) s) f)
  = Some (owner s f).
Proof.
  unfold exec. destruct (re_valid r fl) eqn:Hv.
  - rewrite respond_to_decorator_valid by done. apply annotate_fn_metadata.
  - rewrite respond_to_decorator_invalid by done. apply attach_fn_metadata.
Qed.

Lemma listen_to_decorator_ee r fl f s :
  ee (exec (listen_to_decorator re_valid r fl f) s) = ee s.
Proof.
  unfold exec. destruct (re_valid r fl) eqn:Hv.
  - rewrite listen_to_decorator_valid by done. apply annotate_ee.
  - by rewrite listen_to_decorator_invalid.
Qed.

Lemma respond_to_decorator_ee r fl f s :
  ee (exec (respond_to_decorator re_valid r fl f) s) = ee s.
Proof.
  unfold exec. destruct (re_valid r fl) eqn:Hv.
  - rewrite respond_to_decorator_valid by done. apply annotate_ee.
  - by rewrite respond_to_decorator_invalid.
Qed.

Lemma listen_to_decorator_result r fl f s :
  result (listen_to_decorator re_valid r fl f) s
  = if re_valid r fl then Return f else Raise (re_error r fl).
Proof.
  unfold result. destruct (re_valid r fl) eqn:Hv.
  - rewrite listen_to_decorator_valid by done. apply annotate_result.
  - by rewrite listen_to_decorator_invalid.
Qed.

Lemma respond_to_decorator_result r fl f s :
  result (respond_to_decorator re_valid r fl f) s
  = if re_valid r fl then Return f else Raise (re_error r fl).
Proof.
  unfold result. destruct (re_valid r fl) eqn:Hv.
  - rewrite respond_to_decorator_valid by done. apply annotate_result.
  - by rewrite respond_to_decorator_invalid.
Qed.

End RegexDecorators.

(** The state a decorator leaves when it stops right after its first
    statement. *)
Lemma attach_only_facts (s : State) (f : func) :
  wf s →
  let s' := exec (attach_metadata f) s in
  fn_metadata (obj s' f) = Some (owner s f) ∧
  metadata_of s' f = Some (current s f) ∧
  (lookup_metadata s f = None →
   heap s !! owner s f = None ∧ metadata_of s' f = Some new_Metadata) ∧
  process_of s' f = process_of s f ∧
  listen_to_of s' f = listen_to_of s f ∧
  respond_to_of s' f = respond_to_of s f ∧
  required_settings_of s' f = required_settings_of s f.
Proof.
  intros Hwf s'. subst s'.
  pose proof (attach_metadata_of s f Hwf) as Hm.
  split; [apply attach_fn_metadata|]. split; [done|]. split.
  { intros Hnone. split.
    - unfold owner. rewrite Hnone. apply fresh_heap_None.
    - rewrite Hm. unfold current, metadata_of. by rewrite Hnone. }
  rewrite (process_of_Some _ _ _ Hm), (listen_to_of_Some _ _ _ Hm),
    (respond_to_of_Some _ _ _ Hm), (required_settings_of_Some _ _ _ Hm).
  by rewrite process_of_current, listen_to_of_current, respond_to_of_current,
    required_settings_of_current.
Qed.

Section RegexClaims.

Variable re_valid : string → Z → bool.

(** C2.  For a pattern [r] that compiles under [re.IGNORECASE], the
    decorator returned by [listen_to r] with [flags] omitted returns the
    target and appends to its listen_to list one pattern, compiled with
    [re.IGNORECASE], whose source text is [r]; [respond_to r] does the same
    with the respond_to list. *)
Theorem regex_decorators_append_compiled_pattern
    (s : State) (f : func) (r : string) :
  wf s →
  re_valid r re_IGNORECASE = true →
  (result (decorate (listen_to re_valid r None) f) s = Return f ∧
   listen_to_of (exec (decorate (listen_to re_valid r None) f) s) f
   = listen_to_of s f ++ [mkPattern r re_IGNORECASE] ∧
   pattern <$> last (listen_to_of (exec (decorate (listen_to re_valid r None) f) s) f)
   = Some r) ∧
  (result (decorate (respond_to re_valid r None) f) s = Return f ∧
   respond_to_of (exec (decorate (respond_to re_valid r None) f) s) f
   = respond_to_of s f ++ [mkPattern r re_IGNORECASE] ∧
   pattern <$> last (respond_to_of (exec (decorate (respond_to re_valid r None) f) s) f)
   = Some r).
Proof.
  intros Hwf Hv. split.
  - assert (Hl : listen_to_of (exec (decorate (listen_to re_valid r None) f) s) f
                 = listen_to_of s f ++ [mkPattern r re_IGNORECASE]).
    { change (listen_to_of
                (exec (listen_to_decorator re_valid r re_IGNORECASE f) s) f
              = listen_to_of s f ++ [mkPattern r re_IGNORECASE]).
      rewrite (listen_to_of_Some _ _ _
                 (listen_to_decorator_metadata_of re_valid _ _ _ _ Hwf)).
      unfold listen_to_effect. rewrite Hv. simpl.
      by rewrite listen_to_of_current. }
    split; [|split; [done|]].
    + change (result (listen_to_decorator re_valid r re_IGNORECASE f) s = Return f).
      by rewrite listen_to_decorator_result, Hv.
    + by rewrite Hl, last_snoc.
  - assert (Hl : respond_to_of (exec (decorate (respond_to re_valid r None) f) s) f
                 = respond_to_of s f ++ [mkPattern r re_IGNORECASE]).
    { change (respond_to_of
                (exec (respond_to_decorator re_valid r re_IGNORECASE f) s) f
              = respond_to_of s f ++ [mkPattern r re_IGNORECASE]).
      rewrite (respond_to_of_Some _ _ _
                 (respond_to_decorator_metadata_of re_valid _ _ _ _ Hwf)).
      unfold respond_to_effect. rewrite Hv. simpl.
      by rewrite respond_to_of_current. }
    split; [|split; [done|]].
    + change (result (respond_to_decorator re_valid r re_IGNORECASE f) s = Return f).
      by rewrite respond_to_decorator_result, Hv.
    + by rewrite Hl, last_snoc.
Qed.

(** C3.  Calling a factory ([process], [listen_to], [respond_to], [on],
    [required_settings]) never raises and changes nothing.  Applying the
    decorator of [listen_to] or [respond_to] raises exactly when the pattern
    does not compile under the flags, and returns the target otherwise; the
    decorators of [process], [on] and [required_settings] always return the
    target, whatever their argument. *)
Theorem only_invalid_patterns_raise_at_decoration (s : State) (f : func) :
  (∀ e, process e s = (s, Return (process_decorator e))) ∧
  (∀ r fl, listen_to re_valid r fl s
           = (s, Return (listen_to_decorator re_valid r (default re_IGNORECASE fl)))) ∧
  (∀ r fl, respond_to re_valid r fl s
           = (s, Return (respond_to_decorator re_valid r (default re_IGNORECASE fl)))) ∧
  (∀ n, on n s = (s, Return (on_decorator n))) ∧
  (∀ v, required_settings v s = (s, Return (required_settings_decorator v))) ∧
  (∀ r fl,
      result (decorate (listen_to re_valid r fl) f) s
      = if re_valid r (default re_IGNORECASE fl) then Return f
        else Raise (re_error r (default re_IGNORECASE fl))) ∧
  (∀ r fl,
      result (decorate (respond_to re_valid r fl) f) s
      = if re_valid r (default re_IGNORECASE fl) then Return f
        else Raise (re_error r (default re_IGNORECASE fl))) ∧
  (∀ r fl,
      (∃ e, result (decorate (listen_to re_valid r fl) f) s = Raise e)
      ↔ re_valid r (default re_IGNORECASE fl) = false) ∧
  (∀ r fl,
      (∃ e, result (decorate (respond_to re_valid r fl) f) s = Raise e)
      ↔ re_valid r (default re_IGNORECASE fl) = false) ∧
  (∀ e, result (decorate (process e) f) s = Return f) ∧
  (∀ n, result (decorate (on n) f) s = Return f) ∧
  (∀ v, result (decorate (required_settings v) f) s = Return f).
Proof.
  assert (Hl : ∀ r fl,
             result (decorate (listen_to re_valid r fl) f) s
             = if re_valid r (default re_IGNORECASE fl) then Return f
               else Raise (re_error r (default re_IGNORECASE fl))).
  { intros r fl. apply listen_to_decorator_result. }
  assert (Hr : ∀ r fl,
             result (decorate (respond_to re_valid r fl) f) s
             = if re_valid r (default re_IGNORECASE fl) then Return f
               else Raise (re_error r (default re_IGNORECASE fl))).
  { intros r fl. apply respond_to_decorator_result. }
  repeat split; try reflexivity; try done.
  - intros [e He]. rewrite Hl in He.
    by destruct (re_valid r (default re_IGNORECASE fl)).
  - intros Hv. rewrite Hl, Hv. eauto.
  - intros [e He]. rewrite Hr in He.
    by destruct (re_valid r (default re_IGNORECASE fl)).
  - intros Hv. rewrite Hr, Hv. eauto.
  - intros e. rewrite process_decorator_annotate. apply annotate_result.
  - intros [l|x|l].
    + rewrite required_settings_list_annotate. apply annotate_result.
    + rewrite required_settings_str_annotate. apply annotate_result.
    + reflexivity.
Qed.

End RegexClaims.

Section RegexFrame.

Variable re_valid : string → Z → bool.

Lemma listen_to_effect_frame r fl m :
  pa_respond_to (plugin_actions (listen_to_effect re_valid r fl m))
  = pa_respond_to (plugin_actions m) ∧
  pa_process (plugin_actions (listen_to_effect re_valid r fl m))
  = pa_process (plugin_actions m) ∧
  md_required_settings (listen_to_effect re_valid r fl m)
  = md_required_settings m.
Proof. unfold listen_to_effect. by destruct (re_valid r fl). Qed.

Lemma respond_to_effect_frame r fl m :
  pa_listen_to (plugin_actions (respond_to_effect re_valid r fl m))
  = pa_listen_to (plugin_actions m) ∧
  pa_process (plugin_actions (respond_to_effect re_valid r fl m))
  = pa_process (plugin_actions m) ∧
  md_required_settings (respond_to_effect re_valid r fl m)
  = md_required_settings m.
Proof. unfold respond_to_effect. by destruct (re_valid r fl). Qed.

(** C4.  The decorator of [listen_to] leaves the target's respond_to and
    process lists as they were, and the decorator of [respond_to] leaves its
    listen_to and process lists as they were.  When ["hello"] and ["bye"]
    compile and the target has neither listen_to nor respond_to entries,
    applying [respond_to "hello"] and [listen_to "bye"] in either order
    leaves listen_to holding exactly the pattern of ["bye"] and respond_to
    exactly the pattern of ["hello"], with the process list untouched. *)
Theorem listen_to_and_respond_to_are_independent (s : State) (f : func) :
  wf s →
  (∀ r fl,
      let s' := exec (decorate (listen_to re_valid r fl) f) s in
      respond_to_of s' f = respond_to_of s f ∧
      process_of s' f = process_of s f) ∧
  (∀ r fl,
      let s' := exec (decorate (respond_to re_valid r fl) f) s in
      listen_to_of s' f = listen_to_of s f ∧
      process_of s' f = process_of s f) ∧
  (re_valid "hello" re_IGNORECASE = true →
   re_valid "bye" re_IGNORECASE = true →
   listen_to_of s f = [] →
   respond_to_of s f = [] →
   let a := exec (decorate (respond_to re_valid "hello" None) f ;;
                  decorate (listen_to re_valid "bye" None) f) s in
   let b := exec (decorate (listen_to re_valid "bye" None) f ;;
                  decorate (respond_to re_valid "hello" None) f) s in
   (listen_to_of a f = [mkPattern "bye" re_IGNORECASE] ∧
    respond_to_of a f = [mkPattern "hello" re_IGNORECASE] ∧
    process_of a f = process_of s f) ∧
   (listen_to_of b f = [mkPattern "bye" re_IGNORECASE] ∧
    respond_to_of b f = [mkPattern "hello" re_IGNORECASE] ∧
    process_of b f = process_of s f)).
Proof.
  intros Hwf.
  assert (HL : ∀ s0 r fl, wf s0 →
            metadata_of (exec (decorate (listen_to re_valid r fl) f) s0) f
            = Some (listen_to_effect re_valid r (default re_IGNORECASE fl)
                      (current s0 f))).
  { intros s0 r fl Hwf0. by apply listen_to_decorator_metadata_of. }
  assert (HR : ∀ s0 r fl, wf s0 →
            metadata_of (exec (decorate (respond_to re_valid r fl) f) s0) f
            = Some (respond_to_effect re_valid r (default re_IGNORECASE fl)
                      (current s0 f))).
  { intros s0 r fl Hwf0. by apply respond_to_decorator_metadata_of. }
  split; [|split].
  - intros r fl s'. subst s'.
    destruct (listen_to_effect_frame r (default re_IGNORECASE fl) (current s f))
      as (Hr & Hp & _).
    rewrite (respond_to_of_Some _ _ _ (HL _ r fl Hwf)),
      (process_of_Some _ _ _ (HL _ r fl Hwf)), Hr, Hp.
    by rewrite respond_to_of_current, process_of_current.
  - intros r fl s'. subst s'.
    destruct (respond_to_effect_frame r (default re_IGNORECASE fl) (current s f))
      as (Hl & Hp & _).
    rewrite (listen_to_of_Some _ _ _ (HR _ r fl Hwf)),
      (process_of_Some _ _ _ (HR _ r fl Hwf)), Hl, Hp.
    by rewrite listen_to_of_current, process_of_current.
  - intros Hh Hb Hln Hrn a b.
    rewrite listen_to_of_current in Hln. rewrite respond_to_of_current in Hrn.
    assert (Ha : metadata_of a f
                 = Some (append_listen_to (mkPattern "bye" re_IGNORECASE)
                           (append_respond_to (mkPattern "hello" re_IGNORECASE)
                              (current s f)))).
    { subst a. rewrite (exec_bind _ _ _ f).
      2:{ change (result (respond_to_decorator re_valid "hello" re_IGNORECASE f) s
                  = Return f).
          by rewrite respond_to_decorator_result, Hh. }
      rewrite HL by (by apply respond_to_decorator_wf).
      unfold current at 1. rewrite HR by done.
      unfold listen_to_effect, respond_to_effect. simpl. by rewrite Hh, Hb. }
    assert (Hb' : metadata_of b f
                  = Some (append_respond_to (mkPattern "hello" re_IGNORECASE)
                            (append_listen_to (mkPattern "bye" re_IGNORECASE)
                               (current s f)))).
    { subst b. rewrite (exec_bind _ _ _ f).
      2:{ change (result (listen_to_decorator re_valid "bye" re_IGNORECASE f) s
                  = Return f).
          by rewrite listen_to_decorator_result, Hb. }
      rewrite HR by (by apply listen_to_decorator_wf).
      unfold current at 1. rewrite HL by done.
      unfold listen_to_effect, respond_to_effect. simpl. by rewrite Hh, Hb. }
    rewrite (listen_to_of_Some _ _ _ Ha), (respond_to_of_Some _ _ _ Ha),
      (process_of_Some _ _ _ Ha), (listen_to_of_Some _ _ _ Hb'),
      (respond_to_of_Some _ _ _ Hb'), (process_of_Some _ _ _ Hb').
    simpl. rewrite Hln, Hrn, process_of_current. done.
Qed.

(** C9.  When the pattern does not compile, the decorator of [listen_to]
    (and likewise of [respond_to]) raises [re.error] after its first
    statement has run: the target now has a [metadata] attribute, pointing
    to the instance it had or, if it had none, to a new empty [Metadata]
    that was not in the heap before; the listen_to and respond_to lists are
    what they were. *)
Theorem invalid_pattern_leaves_metadata_attached
    (s : State) (f : func) (r : string) (fl : option Z) :
  wf s →
  re_valid r (default re_IGNORECASE fl) = false →
  (let s' := exec (decorate (listen_to re_valid r fl) f) s in
   result (decorate (listen_to re_valid r fl) f) s
   = Raise (re_error r (default re_IGNORECASE fl)) ∧
   fn_metadata (obj s' f) = Some (owner s f) ∧
   metadata_of s' f = Some (current s f) ∧
   (lookup_metadata s f = None →
    heap s !! owner s f = None ∧ metadata_of s' f = Some new_Metadata) ∧
   listen_to_of s' f = listen_to_of s f ∧
   respond_to_of s' f = respond_to_of s f) ∧
  (let s' := exec (decorate (respond_to re_valid r fl) f) s in
   result (decorate (respond_to re_valid r fl) f) s
   = Raise (re_error r (default re_IGNORECASE fl)) ∧
   fn_metadata (obj s' f) = Some (owner s f) ∧
   metadata_of s' f = Some (current s f) ∧
   (lookup_metadata s f = None →
    heap s !! owner s f = None ∧ metadata_of s' f = Some new_Metadata) ∧
   listen_to_of s' f = listen_to_of s f ∧
   respond_to_of s' f = respond_to_of s f).
Proof.
  intros Hwf Hv.
  destruct (attach_only_facts s f Hwf) as (Ho & Hm & Hnew & _ & Hl & Hr & _).
  split; intros s'.
  - assert (Hs' : s' = exec (attach_metadata f) s).
    { subst s'. unfold exec at 1.
      by rewrite listen_to_decorate, listen_to_decorator_invalid. }
    split.
    { change (result (listen_to_decorator re_valid r (default re_IGNORECASE fl) f) s
              = Raise (re_error r (default re_IGNORECASE fl))).
      by rewrite listen_to_decorator_result, Hv. }
    rewrite Hs'. done.
  - assert (Hs' : s' = exec (attach_metadata f) s).
    { subst s'. unfold exec at 1.
      by rewrite respond_to_decorate, respond_to_decorator_invalid. }
    split.
    { change (result (respond_to_decorator re_valid r (default re_IGNORECASE fl) f) s
              = Raise (re_error r (default re_IGNORECASE fl))).
      by rewrite respond_to_decorator_result, Hv. }
    rewrite Hs'. done.
Qed.

End RegexFrame.

(** ** Stacked decorators *)

Section Stacking.

Variable re_valid : string → Z → bool.

Lemma annotation_wf a f s :
  wf s → wf (exec (decorate (annotation_factory re_valid a) f) s).
Proof.
  intros Hwf. destruct a as [e|r fl|r fl|[l|x|l]].
  - by apply annotate_wf.
  - by apply listen_to_decorator_wf.
  - by apply respond_to_decorator_wf.
  - by apply annotate_wf.
  - by apply annotate_wf.
  - by apply attach_wf.
Qed.

Lemma annotation_fn_metadata a f s :
  fn_metadata (obj (exec (decorate (annotation_factory re_valid a) f) s) f)
  = Some (owner s f).
Proof.
  destruct a as [e|r fl|r fl|[l|x|l]].
  - apply annotate_fn_metadata.
  - apply listen_to_decorator_fn_metadata.
  - apply respond_to_decorator_fn_metadata.
  - apply annotate_fn_metadata.
  - apply annotate_fn_metadata.
  - apply attach_fn_metadata.
Qed.

Lemma annotation_metadata_of a f s :
  wf s →
  metadata_of (exec (decorate (annotation_factory re_valid a) f) s) f
  = Some (effect re_valid a (current s f)).
Proof.
  intros Hwf. destruct a as [e|r fl|r fl|[l|x|l]].
  - by apply annotate_metadata_of.
  - by apply listen_to_decorator_metadata_of.
  - by apply respond_to_decorator_metadata_of.
  - by apply annotate_metadata_of.
  - by apply annotate_metadata_of.
  - by apply attach_metadata_of.
Qed.

Lemma annotation_ee a f s :
  ee (exec (decorate (annotation_factory re_valid a) f) s) = ee s.
Proof.
  destruct a as [e|r fl|r fl|[l|x|l]].
  - apply annotate_ee.
  - apply listen_to_decorator_ee.
  - apply respond_to_decorator_ee.
  - apply annotate_ee.
  - apply annotate_ee.
  - reflexivity.
Qed.

Lemma annotation_result a f s :
  result (decorate (annotation_factory re_valid a) f) s
  = if compiles re_valid a then Return f
    else match a with
         | ann_listen_to r fl | ann_respond_to r fl =>
             Raise (re_error r (default re_IGNORECASE fl))
         | _ => Return f
         end.
Proof.
  destruct a as [e|r fl|r fl|[l|x|l]]; simpl.
  - apply annotate_result.
  - change (result (listen_to_decorator re_valid r (default re_IGNORECASE fl) f) s
            = if re_valid r (default re_IGNORECASE fl) then Return f
              else Raise (re_error r (default re_IGNORECASE fl))).
    apply listen_to_decorator_result.
  - change (result (respond_to_decorator re_valid r (default re_IGNORECASE fl) f) s
            = if re_valid r (default re_IGNORECASE fl) then Return f
              else Raise (re_error r (default re_IGNORECASE fl))).
    apply respond_to_decorator_result.
  - apply annotate_result.
  - apply annotate_result.
  - reflexivity.
Qed.

(** Once a target has a [metadata] attribute of its own, every further
    decorator works on that instance. *)
Lemma annotate_all_attached l f s p m :
  wf s →
  fn_metadata (obj s f) = Some p →
  metadata_of s f = Some m →
  wf (annotate_all re_valid l f s) ∧
  fn_metadata (obj (annotate_all re_valid l f s) f) = Some p ∧
  metadata_of (annotate_all re_valid l f s) f = Some (effects re_valid l m).
Proof.
  revert s m. induction l as [|a l IH]; intros s m Hwf Hp Hm; simpl; [done|].
  apply IH.
  - by apply annotation_wf.
  - rewrite annotation_fn_metadata. unfold owner.
    by rewrite (lookup_own _ _ _ Hp).
  - rewrite annotation_metadata_of by done. unfold current. by rewrite Hm.
Qed.

(** The lists after one decorator, and after a stack of them, spelled
    out. *)
Lemma effect_lists a m :
  pa_process (plugin_actions (effect re_valid a m))
  = pa_process (plugin_actions m) ++ added_process [a] ∧
  pa_listen_to (plugin_actions (effect re_valid a m))
  = pa_listen_to (plugin_actions m) ++ added_listen_to re_valid [a] ∧
  pa_respond_to (plugin_actions (effect re_valid a m))
  = pa_respond_to (plugin_actions m) ++ added_respond_to re_valid [a] ∧
  md_required_settings (effect re_valid a m)
  = md_required_settings m ++ added_required_settings [a].
Proof.
  destruct a as [e|r fl|r fl|[l|x|l]];
    unfold added_process, added_listen_to, added_respond_to,
      added_required_settings; simpl;
    unfold listen_to_effect, respond_to_effect;
    try destruct (re_valid r (default re_IGNORECASE fl)); simpl;
    rewrite ?app_nil_r; done.
Qed.

Lemma added_process_cons a l :
  added_process (a :: l) = added_process [a] ++ added_process l.
Proof. change (a :: l) with ([a] ++ l). apply omap_app. Qed.

Lemma added_listen_to_cons a l :
  added_listen_to re_valid (a :: l)
  = added_listen_to re_valid [a] ++ added_listen_to re_valid l.
Proof. change (a :: l) with ([a] ++ l). apply omap_app. Qed.

Lemma added_respond_to_cons a l :
  added_respond_to re_valid (a :: l)
  = added_respond_to re_valid [a] ++ added_respond_to re_valid l.
Proof. change (a :: l) with ([a] ++ l). apply omap_app. Qed.

Lemma added_required_settings_cons a l :
  added_required_settings (a :: l)
  = added_required_settings [a] ++ added_required_settings l.
Proof. change (a :: l) with ([a] ++ l). apply bind_app. Qed.

Lemma effects_lists l m :
  pa_process (plugin_actions (effects re_valid l m))
  = pa_process (plugin_actions m) ++ added_process l ∧
  pa_listen_to (plugin_actions (effects re_valid l m))
  = pa_listen_to (plugin_actions m) ++ added_listen_to re_valid l ∧
  pa_respond_to (plugin_actions (effects re_valid l m))
  = pa_respond_to (plugin_actions m) ++ added_respond_to re_valid l ∧
  md_required_settings (effects re_valid l m)
  = md_required_settings m ++ added_required_settings l.
Proof.
  revert m. induction l as [|a l IH]; intros m.
  - simpl. by rewrite !app_nil_r.
  - change (effects re_valid (a :: l) m)
      with (effects re_valid l (effect re_valid a m)).
    destruct (IH (effect re_valid a m)) as (H1 & H2 & H3 & H4).
    destruct (effect_lists a m) as (E1 & E2 & E3 & E4).
    rewrite H1, H2, H3, H4, E1, E2, E3, E4.
    rewrite (added_process_cons a l), (added_listen_to_cons a l),
      (added_respond_to_cons a l), (added_required_settings_cons a l).
    by rewrite <- !app_assoc.
Qed.

(** Mutating with functions that agree gives the same store, and mutating
    with the identity gives the store back. *)
Lemma mutate_ext s f g g' :
  (∀ m, g m = g' m) →
  exec (mutate_metadata f g) s = exec (mutate_metadata f g') s.
Proof.
  intros Hext. unfold exec, mutate_metadata.
  destruct (lookup_metadata s f) as [l|]; simpl; [|done].
  f_equal. apply alter_ext. auto.
Qed.

Lemma mutate_id s f : exec (mutate_metadata f (λ m, m)) s = s.
Proof.
  unfold exec, mutate_metadata.
  destruct (lookup_metadata s f) as [l|]; simpl; [|done].
  rewrite alter_id by done. by destruct s.
Qed.

(** Every metadata decorator leaves the store its first statement leaves,
    with the target's instance mutated by the decorator's effect. *)
Lemma annotation_exec a f s :
  exec (decorate (annotation_factory re_valid a) f) s
  = exec (mutate_metadata f (effect re_valid a)) (exec (attach_metadata f) s).
Proof.
  destruct a as [e|r fl|r fl|[l|x|l]].
  - apply annotate_exec.
  - transitivity (exec (listen_to_decorator re_valid r (default re_IGNORECASE fl) f) s);
      [reflexivity|].
    unfold exec at 1. destruct (re_valid r (default re_IGNORECASE fl)) eqn:Hv.
    + rewrite listen_to_decorator_valid by done.
      fold (exec (annotate (append_listen_to
                              (mkPattern r (default re_IGNORECASE fl))) f) s).
      rewrite annotate_exec. apply mutate_ext. intros m. simpl.
      unfold listen_to_effect. by rewrite Hv.
    + rewrite listen_to_decorator_invalid by done. simpl.
      rewrite <- (mutate_id (exec (attach_metadata f) s) f) at 1.
      apply mutate_ext. intros m. simpl. unfold listen_to_effect. by rewrite Hv.
  - transitivity (exec (respond_to_decorator re_valid r (default re_IGNORECASE fl) f) s);
      [reflexivity|].
    unfold exec at 1. destruct (re_valid r (default re_IGNORECASE fl)) eqn:Hv.
    + rewrite respond_to_decorator_valid by done.
      fold (exec (annotate (append_respond_to
                              (mkPattern r (default re_IGNORECASE fl))) f) s).
      rewrite annotate_exec. apply mutate_ext. intros m. simpl.
      unfold respond_to_effect. by rewrite Hv.
    + rewrite respond_to_decorator_invalid by done. simpl.
      rewrite <- (mutate_id (exec (attach_metadata f) s) f) at 1.
      apply mutate_ext. intros m. simpl. unfold respond_to_effect. by rewrite Hv.
  - apply annotate_exec.
  - apply annotate_exec.
  - transitivity (exec (attach_metadata f) s); [reflexivity|].
    symmetry. apply (mutate_id (exec (attach_metadata f) s) f).
Qed.

Lemma annotation_objs a f s :
  objs (exec (decorate (annotation_factory re_valid a) f) s)
  = <[f := mkFuncObj (Some (owner s f)) (fn_dict (obj s f)) (fn_mro (obj s f))]>
      (objs s).
Proof. rewrite annotation_exec, mutate_objs. apply attach_objs. Qed.

Lemma annotation_obj_other a f g s :
  g ≠ f → obj (exec (decorate (annotation_factory re_valid a) f) s) g = obj s g.
Proof.
  intros Hne. unfold obj. by rewrite annotation_objs, lookup_insert_ne.
Qed.

Lemma annotation_fn_dict a f s :
  fn_dict (obj (exec (decorate (annotation_factory re_valid a) f) s) f)
  = fn_dict (obj s f).
Proof. unfold obj at 1. by rewrite annotation_objs, lookup_insert_eq. Qed.

Lemma annotation_fn_mro a f g s :
  fn_mro (obj (exec (decorate (annotation_factory re_valid a) f) s) g)
  = fn_mro (obj s g).
Proof.
  unfold obj at 1. rewrite annotation_objs.
  destruct (decide (f = g)) as [->|Hne].
  - by rewrite lookup_insert_eq.
  - by rewrite lookup_insert_ne.
Qed.

Lemma annotation_lookup a f s :
  lookup_metadata (exec (decorate (annotation_factory re_valid a) f) s) f
  = Some (owner s f).
Proof. apply lookup_own, annotation_fn_metadata. Qed.

(** A stack of decorators on [f] leaves the own attributes of the other
    objects alone. *)
Lemma annotate_all_obj_other l f c s :
  c ≠ f → obj (annotate_all re_valid l f s) c = obj s c.
Proof.
  intros Hne. revert s. induction l as [|a l IH]; intros s; simpl; [done|].
  rewrite IH. by apply annotation_obj_other.
Qed.

Lemma run_calls_ee l s : ee (run_calls re_valid l s) = ee s ++ registrations l.
Proof.
  revert s. induction l as [|c l IH]; intros s; simpl.
  - by rewrite app_nil_r.
  - rewrite IH. destruct c as [a f|n f]; simpl.
    + by rewrite annotation_ee.
    + by rewrite <- app_assoc.
Qed.

End Stacking.

(** C7.  Every application of [on] adds one registration at the end of the
    registry, also when the same callable is already registered for the same
    event; after any sequence of uses of the module the registry is the
    previous registry followed by the registrations asked for, in order, so
    nothing is ever removed; [on "shutdown"] applied to two callables leaves
    both registered for ["shutdown"], in that order. *)
Theorem registrations_only_accumulate
    (re_valid : string → Z → bool) (s : State) :
  (∀ n f, ee (exec (decorate (on n) f) s) = ee s ++ [(n, f)]) ∧
  (∀ l, ee (run_calls re_valid l s) = ee s ++ registrations l) ∧
  (∀ l n, listeners (run_calls re_valid l s) n
          = listeners s n ++ (snd <$> filter (λ r, r.1 = n) (registrations l))) ∧
  (∀ n f, listeners (exec (decorate (on n) f ;; decorate (on n) f) s) n
          = listeners s n ++ [f; f]) ∧
  (∀ f g, listeners (exec (decorate (on "shutdown") f ;;
                           decorate (on "shutdown") g) s) "shutdown"
          = listeners s "shutdown" ++ [f; g]).
Proof.
  assert (Htwo : ∀ n f g,
             listeners (exec (decorate (on n) f ;; decorate (on n) g) s) n
             = listeners s n ++ [f; g]).
  { intros n f g.
    rewrite (listeners_snoc (exec (decorate (on n) f) s) _ n n g) by reflexivity.
    rewrite (listeners_snoc s _ n n f) by reflexivity.
    rewrite !decide_True by done. by rewrite <- app_assoc. }
  split; [reflexivity|]. split; [intros l; apply run_calls_ee|].
  split; [|split; [intros n f; apply Htwo | intros f g; apply Htwo]].
  intros l n. unfold listeners.
  by rewrite run_calls_ee, filter_app, fmap_app.
Qed.

(** C8, as the code has it.  A metadata decorator that does not raise
    returns the target it was given, and it leaves the target with one
    attached [Metadata] instance: the one [f.metadata] already evaluated to
    (the target's own or, for a class, the one inherited from a base class,
    which every object holding it keeps reading), or, when [f.metadata] did
    not resolve, a new instance that was not in the heap before and holds
    only what the decorator added.  Every decorator stacked afterwards keeps
    the target attached to that same instance, and each of its four lists
    is the previous list followed by what the decorators added to it, in
    the order they were applied. *)
Theorem decorators_share_one_metadata
    (re_valid : string → Z → bool) (s : State) (f : func)
    (a : annotation) (rest : list annotation) :
  wf s →
  let s1 := exec (decorate (annotation_factory re_valid a) f) s in
  let sn := annotate_all re_valid rest f s1 in
  (compiles re_valid a = true →
   result (decorate (annotation_factory re_valid a) f) s = Return f) ∧
  (∀ g, result (decorate (annotation_factory re_valid a) f) s = Return g → g = f) ∧
  (lookup_metadata s f = None →
   heap s !! owner s f = None ∧
   metadata_of s1 f
   = Some (mkMetadata
             (mkPluginActions (added_process [a]) (added_listen_to re_valid [a])
                (added_respond_to re_valid [a]))
             (added_required_settings [a]))) ∧
  (∀ p, lookup_metadata s f = Some p → owner s f = p ∧ is_Some (heap s !! p)) ∧
  fn_metadata (obj s1 f) = Some (owner s f) ∧
  fn_metadata (obj sn f) = Some (owner s f) ∧
  (∀ c, fn_metadata (obj s c) = Some (owner s f) →
        metadata_of sn c = metadata_of sn f) ∧
  process_of sn f = process_of s f ++ added_process (a :: rest) ∧
  listen_to_of sn f = listen_to_of s f ++ added_listen_to re_valid (a :: rest) ∧
  respond_to_of sn f = respond_to_of s f ++ added_respond_to re_valid (a :: rest) ∧
  required_settings_of sn f
  = required_settings_of s f ++ added_required_settings (a :: rest) ∧
  wf sn.
Proof.
  intros Hwf s1 sn.
  pose proof (annotation_wf re_valid a f s Hwf) as Hwf1.
  pose proof (annotation_fn_metadata re_valid a f s) as Hp1.
  pose proof (annotation_metadata_of re_valid a f s Hwf) as Hm1.
  pose proof (annotation_result re_valid a f s) as Hres.
  fold s1 in Hwf1, Hp1, Hm1.
  destruct (annotate_all_attached re_valid rest f s1 _ _ Hwf1 Hp1 Hm1)
    as (Hwfn & Hpn & Hmn).
  fold sn in Hwfn, Hpn, Hmn.
  change (effects re_valid rest (effect re_valid a (current s f)))
    with (effects re_valid (a :: rest) (current s f)) in Hmn.
  destruct (effects_lists re_valid (a :: rest) (current s f))
    as (L1 & L2 & L3 & L4).
  split; [by intros Hc; rewrite Hres, Hc|].
  split.
  { intros g. rewrite Hres.
    destruct (compiles re_valid a); [by intros [= <-]|].
    destruct a; try done; by intros [= <-]. }
  split.
  { intros Hnone. split.
    - unfold owner. rewrite Hnone. apply fresh_heap_None.
    - rewrite Hm1. f_equal. unfold current, metadata_of. rewrite Hnone. simpl.
      destruct (effect_lists re_valid a new_Metadata) as (E1 & E2 & E3 & E4).
      destruct (effect re_valid a new_Metadata) as [[ps ls rs] qs].
      simpl in *. by subst. }
  split.
  { intros p Hp. split.
    - unfold owner. by rewrite Hp.
    - by eapply wf_lookup. }
  split; [done|]. split; [done|]. split.
  { intros c Hc. destruct (decide (c = f)) as [->|Hne]; [done|].
    unfold metadata_of. rewrite (lookup_own _ _ _ Hpn).
    assert (Hown : fn_metadata (obj sn c) = Some (owner s f)).
    { subst sn s1. rewrite annotate_all_obj_other by done.
      by rewrite annotation_obj_other. }
    by rewrite (lookup_own _ _ _ Hown). }
  rewrite (process_of_Some _ _ _ Hmn), (listen_to_of_Some _ _ _ Hmn),
    (respond_to_of_Some _ _ _ Hmn), (required_settings_of_Some _ _ _ Hmn).
  rewrite L1, L2, L3, L4.
  by rewrite process_of_current, listen_to_of_current, respond_to_of_current,
    required_settings_of_current.
Qed.

(** C8 as the spec states it fails on a class hierarchy.  Class 2 derives
    from class 1; [required_settings] is applied to class 1 and then, for
    the first time, to class 2.  The instance attached to class 2 is not a
    new one: it was in the heap before, it is the instance of class 1, and
    class 1 now reads the settings given for class 2. *)
Lemma subclass_first_decoration_reuses_base_metadata :
  let s1 := exec (decorate (required_settings (settings_list ["A"%string]))
                    1%positive) sample_hierarchy in
  let s2 := exec (decorate (required_settings (settings_list ["B"%string]))
                    2%positive) s1 in
  fn_metadata (obj s1 2%positive) = None ∧
  ∃ p, fn_metadata (obj s2 2%positive) = Some p ∧
       fn_metadata (obj s2 1%positive) = Some p ∧
       heap s1 !! p ≠ None ∧
       required_settings_of s2 1%positive = ["A"; "B"]%string.
Proof.
  split; [reflexivity|]. exists 1%positive.
  split; [vm_compute; reflexivity|]. split; [vm_compute; reflexivity|].
  split; [vm_compute; discriminate|]. vm_compute. reflexivity.
Qed.

(** ** The theorems at concrete inputs *)

Lemma regex_decorators_append_compiled_pattern_witness :
  wf init ∧ sample_re_valid "hello" re_IGNORECASE = true ∧
  listen_to_of (exec (decorate (listen_to sample_re_valid "hello" None) 1%positive)
                  init) 1%positive
  = [mkPattern "hello" re_IGNORECASE].
Proof.
  split; [exact wf_init|]. split; [reflexivity|].
  apply (regex_decorators_append_compiled_pattern sample_re_valid init 1%positive
           "hello" wf_init eq_refl).
Defined.

Lemma only_invalid_patterns_raise_at_decoration_witness :
  result (decorate (listen_to sample_re_valid "(" None) 1%positive) init
  = Raise (re_error "(" re_IGNORECASE).
Proof.
  apply (only_invalid_patterns_raise_at_decoration sample_re_valid init 1%positive).
Defined.

Lemma listen_to_and_respond_to_are_independent_witness :
  wf init ∧
  sample_re_valid "hello" re_IGNORECASE = true ∧
  sample_re_valid "bye" re_IGNORECASE = true ∧
  listen_to_of init 1%positive = [] ∧
  respond_to_of init 1%positive = [] ∧
  respond_to_of
    (exec (decorate (listen_to sample_re_valid "bye" None) 1%positive ;;
           decorate (respond_to sample_re_valid "hello" None) 1%positive) init)
    1%positive
  = [mkPattern "hello" re_IGNORECASE].
Proof.
  split; [exact wf_init|]. repeat (split; [reflexivity|]).
  apply (listen_to_and_respond_to_are_independent sample_re_valid init 1%positive
           wf_init); reflexivity.
Defined.

Lemma invalid_pattern_leaves_metadata_attached_witness :
  wf init ∧
  sample_re_valid "(" (default re_IGNORECASE None) = false ∧
  metadata_of (exec (decorate (listen_to sample_re_valid "(" None) 1%positive) init)
    1%positive
  = Some new_Metadata.
Proof.
  split; [exact wf_init|]. split; [reflexivity|].
  apply (invalid_pattern_leaves_metadata_attached sample_re_valid init 1%positive
           "(" None wf_init eq_refl).
  reflexivity.
Defined.

Lemma wfb_wf s : wfb s = true → wf s.
Proof.
  unfold wfb. intros H%bool_decide_eq_true. intros f o l Ho Hm.
  specialize (H f o Ho). unfold live in H. by rewrite Hm in H.
Qed.

Lemma wf_sample_hierarchy : wf sample_hierarchy.
Proof. apply wfb_wf. vm_compute. reflexivity. Qed.

Lemma decorators_share_one_metadata_witness :
  wf sample_hierarchy ∧
  respond_to_of
    (annotate_all sample_re_valid
       [ann_respond_to "hello" None; ann_process "message";
        ann_required_settings (settings_list ["A"; "B"]%string);
        ann_respond_to "(" None; ann_respond_to "bye" (Some 0)] 2%positive
       (exec (decorate (annotation_factory sample_re_valid
                          (ann_required_settings (settings_str "TOKEN")))
                2%positive) sample_hierarchy))
    2%positive
  = [mkPattern "hello" re_IGNORECASE; mkPattern "bye" 0] ∧
  required_settings_of
    (annotate_all sample_re_valid
       [ann_respond_to "hello" None; ann_process "message";
        ann_required_settings (settings_list ["A"; "B"]%string);
        ann_respond_to "(" None; ann_respond_to "bye" (Some 0)] 2%positive
       (exec (decorate (annotation_factory sample_re_valid
                          (ann_required_settings (settings_str "TOKEN")))
                2%positive) sample_hierarchy))
    2%positive
  = ["TOKEN"; "A"; "B"]%string.
Proof.
  split; [exact wf_sample_hierarchy|].
  split;
    apply (decorators_share_one_metadata sample_re_valid sample_hierarchy
             2%positive (ann_required_settings (settings_str "TOKEN"))
             [ann_respond_to "hello" None; ann_process "message";
              ann_required_settings (settings_list ["A"; "B"]%string);
              ann_respond_to "(" None; ann_respond_to "bye" (Some 0)]
             wf_sample_hierarchy).
Defined.

(** ** Beyond one target: frames, aliases and sequences of uses *)

Lemma mutate_heap_other s f g q :
  lookup_metadata s f ≠ Some q →
  heap (exec (mutate_metadata f g) s) !! q = heap s !! q.
Proof.
  intros Hne. unfold exec, mutate_metadata.
  destruct (lookup_metadata s f) as [p|] eqn:Hp; simpl; [|done].
  apply lookup_alter_ne. congruence.
Qed.

Lemma mutate_dom s f g : dom (heap (exec (mutate_metadata f g) s)) = dom (heap s).
Proof.
  unfold exec, mutate_metadata.
  destruct (lookup_metadata s f) as [p|]; simpl; [|done].
  apply dom_alter_L.
Qed.

(** The lookup on [g] gives the same result in two stores where [g] and the
    objects it inherits from have the same own attribute. *)
Lemma lookup_metadata_stable s s' g :
  obj s' g = obj s g →
  (∀ c, c ∈ fn_mro (obj s g) → fn_metadata (obj s' c) = fn_metadata (obj s c)) →
  lookup_metadata s' g = lookup_metadata s g.
Proof.
  intros Hg Hmro. unfold lookup_metadata, inherited_metadata. rewrite Hg.
  destruct (fn_metadata (obj s g)); [done|]. f_equal.
  apply list_omap_ext, Forall2_same_length_lookup. split; [done|].
  intros i c c' Hc Hc'. rewrite Hc in Hc'. injection Hc' as <-.
  apply Hmro. by eapply list_elem_of_lookup_2.
Qed.

(** The pointer of an object that has one is in the heap, so it is not the
    address the next [Metadata()] gets. *)
Lemma wf_not_fresh s g q :
  wf s → lookup_metadata s g = Some q → q ≠ fresh (dom (heap s)).
Proof.
  intros Hwf Hq Heq. apply (wf_lookup _ _ _ Hwf) in Hq.
  rewrite Heq, fresh_heap_None in Hq. by destruct Hq.
Qed.

Section Frames.

Variable re_valid : string → Z → bool.

Lemma annotation_heap_other a f s q :
  is_Some (heap s !! q) → q ≠ owner s f →
  heap (exec (decorate (annotation_factory re_valid a) f) s) !! q = heap s !! q.
Proof.
  intros Hq Hne. rewrite annotation_exec, mutate_heap_other.
  - by apply attach_heap_old.
  - rewrite attach_lookup. congruence.
Qed.

Lemma annotation_dom a f s :
  dom (heap (exec (decorate (annotation_factory re_valid a) f) s))
  = {[fresh (dom (heap s))]} ∪ dom (heap s).
Proof. rewrite annotation_exec, mutate_dom, attach_heap. apply dom_insert_L. Qed.

(** Every instance of the heap is still there after a decorator, holding
    what it held, possibly followed by more. *)
Lemma annotation_heap_extends a f s p m :
  heap s !! p = Some m →
  ∃ m', heap (exec (decorate (annotation_factory re_valid a) f) s) !! p = Some m' ∧
        extends m m'.
Proof.
  intros Hp. rewrite annotation_exec.
  rewrite (mutate_heap _ _ _ _ (attach_lookup s f)).
  assert (Hold : heap (exec (attach_metadata f) s) !! p = Some m)
    by (rewrite attach_heap_old; eauto).
  destruct (decide (owner s f = p)) as [->|Hne].
  - exists (effect re_valid a m). rewrite lookup_alter_eq, Hold. split; [done|].
    destruct a as [e|r fl|r fl|[l|x|l]]; simpl;
      unfold listen_to_effect, respond_to_effect;
      try destruct (re_valid r (default re_IGNORECASE fl));
      repeat split; simpl; try done; by apply prefix_app_r.
  - exists m. rewrite lookup_alter_ne by done. split; [done|]. by repeat split.
Qed.

(** The lookup on [g] is unchanged when [g] is neither the target nor a
    class deriving from it, and also when [g] has its own attribute. *)
Lemma annotation_lookup_other a f g s :
  g ≠ f → f ∉ fn_mro (obj s g) →
  lookup_metadata (exec (decorate (annotation_factory re_valid a) f) s) g
  = lookup_metadata s g.
Proof.
  intros Hne Hmro. apply lookup_metadata_stable.
  - by apply annotation_obj_other.
  - intros c Hc. rewrite annotation_obj_other; [done|]. by intros ->.
Qed.


Lemma annotation_metadata_of_frame a f g s :
  wf s →
  lookup_metadata (exec (decorate (annotation_factory re_valid a) f) s) g
  = lookup_metadata s g →
  (∀ p, lookup_metadata s f = Some p → lookup_metadata s g ≠ Some p) →
  metadata_of (exec (decorate (annotation_factory re_valid a) f) s) g
  = metadata_of s g.
Proof.
  intros Hwf Hlook Hsep. unfold metadata_of. rewrite Hlook.
  destruct (lookup_metadata s g) as [q|] eqn:Hq; [|done].
  apply annotation_heap_other; [by eapply wf_lookup|].
  unfold owner. destruct (lookup_metadata s f) as [p|] eqn:Hp; simpl.
  - intros ->. by apply (Hsep p).
  - by eapply wf_not_fresh.
Qed.

End Frames.

Section Sequences.

Variable re_valid : string → Z → bool.

Lemma run_call_annotate a f :
  run_call re_valid (call_annotate a f) = decorate (annotation_factory re_valid a) f.
Proof. reflexivity. Qed.

Lemma run_call_wf c s : wf s → wf (exec (run_call re_valid c) s).
Proof.
  intros Hwf. destruct c as [a f|n f].
  - by apply annotation_wf.
  - exact Hwf.
Qed.

Lemma run_calls_wf l s : wf s → wf (run_calls re_valid l s).
Proof.
  revert s. induction l as [|c l IH]; intros s Hwf; simpl; [done|].
  by apply IH, run_call_wf.
Qed.

Lemma extends_refl m : extends m m.
Proof. by repeat split. Qed.

Lemma extends_trans m1 m2 m3 : extends m1 m2 → extends m2 m3 → extends m1 m3.
Proof.
  intros (H1 & H2 & H3 & H4) (K1 & K2 & K3 & K4).
  repeat split; by etrans.
Qed.

Lemma run_calls_heap_extends l s p m :
  heap s !! p = Some m →
  ∃ m', heap (run_calls re_valid l s) !! p = Some m' ∧ extends m m'.
Proof.
  revert s m. induction l as [|c l IH]; intros s m Hp; simpl.
  - exists m. split; [done|apply extends_refl].
  - assert (∃ m1, heap (exec (run_call re_valid c) s) !! p = Some m1 ∧ extends m m1)
      as (m1 & Hp1 & He1).
    { destruct c as [a f|n f].
      - by apply annotation_heap_extends.
      - exists m. split; [done|apply extends_refl]. }
    destruct (IH _ _ Hp1) as (m' & Hp' & He').
    exists m'. split; [done|]. by eapply extends_trans.
Qed.

Lemma run_call_fn_metadata c g s p :
  fn_metadata (obj s g) = Some p →
  fn_metadata (obj (exec (run_call re_valid c) s) g) = Some p.
Proof.
  intros Hp. destruct c as [a f|n f]; [|done]. rewrite run_call_annotate.
  destruct (decide (g = f)) as [->|Hne].
  - rewrite annotation_fn_metadata. unfold owner.
    by rewrite (lookup_own _ _ _ Hp).
  - by rewrite annotation_obj_other.
Qed.

Lemma run_calls_fn_metadata l g s p :
  fn_metadata (obj s g) = Some p →
  fn_metadata (obj (run_calls re_valid l s) g) = Some p.
Proof.
  revert s. induction l as [|c l IH]; intros s Hp; simpl; [done|].
  by apply IH, run_call_fn_metadata.
Qed.

Lemma run_call_fn_dict c g s :
  fn_dict (obj (exec (run_call re_valid c) s) g) = fn_dict (obj s g).
Proof.
  destruct c as [a f|n f]; [|done]. rewrite run_call_annotate.
  destruct (decide (g = f)) as [->|Hne].
  - apply annotation_fn_dict.
  - by rewrite annotation_obj_other.
Qed.

Lemma run_call_fn_mro c g s :
  fn_mro (obj (exec (run_call re_valid c) s) g) = fn_mro (obj s g).
Proof.
  destruct c as [a f|n f]; [|done]. rewrite run_call_annotate.
  apply annotation_fn_mro.
Qed.

Lemma run_call_targets c l s :
  targets_are_functions s l →
  targets_are_functions (exec (run_call re_valid c) s) l.
Proof.
  unfold targets_are_functions. intros H. eapply Forall_impl; [exact H|].
  intros [a f|n f]; [|done]. by rewrite run_call_fn_mro.
Qed.

Lemma run_call_unshared c s :
  wf s → unshared s → targets_are_functions s [c] →
  unshared (exec (run_call re_valid c) s).
Proof.
  intros Hwf Hun Hfun. destruct c as [a f|n f]; [|exact Hun].
  unfold targets_are_functions in Hfun. rewrite Forall_singleton in Hfun.
  assert (Hkey : ∀ h q, h ≠ f → fn_metadata (obj s h) = Some q → q ≠ owner s f).
  { intros h q Hne Hq Heq. unfold owner in Heq.
    rewrite (lookup_function _ _ Hfun) in Heq.
    destruct (fn_metadata (obj s f)) as [p|] eqn:Hp; simpl in Heq.
    - subst q. by apply Hne, (Hun h f p).
    - by apply (wf_not_fresh s h q Hwf (lookup_own _ _ _ Hq)). }
  intros h1 h2 q. rewrite run_call_annotate.
  destruct (decide (h1 = f)) as [->|H1]; destruct (decide (h2 = f)) as [->|H2];
    try done.
  - rewrite annotation_fn_metadata, annotation_obj_other by done.
    intros [= <-] Hq. by destruct (Hkey h2 _ H2 Hq).
  - rewrite annotation_fn_metadata, annotation_obj_other by done.
    intros Hq [= <-]. by destruct (Hkey h1 _ H1 Hq).
  - rewrite !annotation_obj_other by done. apply Hun.
Qed.

Lemma run_call_current c g s :
  wf s → unshared s → targets_are_functions s [c] → fn_mro (obj s g) = [] →
  current (exec (run_call re_valid c) s) g
  = effects re_valid (annotations_for g [c]) (current s g).
Proof.
  intros Hwf Hun Hfun Hg. destruct c as [a f|n f]; [|done].
  unfold targets_are_functions in Hfun. rewrite Forall_singleton in Hfun. rewrite run_call_annotate.
  unfold annotations_for. simpl. destruct (decide (f = g)) as [->|Hne]; simpl.
  - unfold current at 1. by rewrite annotation_metadata_of.
  - unfold current. rewrite annotation_metadata_of_frame; try done.
    + apply annotation_lookup_other; [done|]. rewrite Hg. apply not_elem_of_nil.
    + intros p Hp Hq. rewrite lookup_function in Hp, Hq by done.
      by apply Hne, (Hun f g p).
Qed.

Lemma effects_app l1 l2 m :
  effects re_valid (l1 ++ l2) m = effects re_valid l2 (effects re_valid l1 m).
Proof. revert m. induction l1 as [|a l1 IH]; intros m; simpl; [done|apply IH]. Qed.

Lemma annotations_for_cons g c l :
  annotations_for g (c :: l) = annotations_for g [c] ++ annotations_for g l.
Proof. change (c :: l) with ([c] ++ l). apply omap_app. Qed.

Lemma run_calls_current l g s :
  wf s → unshared s → targets_are_functions s l → fn_mro (obj s g) = [] →
  current (run_calls re_valid l s) g
  = effects re_valid (annotations_for g l) (current s g).
Proof.
  revert s. induction l as [|c l IH]; intros s Hwf Hun Hfun Hg; [reflexivity|].
  unfold targets_are_functions in Hfun. rewrite Forall_cons in Hfun.
  destruct Hfun as [Hc Hl].
  assert (Hc1 : targets_are_functions s [c])
    by (unfold targets_are_functions; by rewrite Forall_singleton).
  change (run_calls re_valid (c :: l) s)
    with (run_calls re_valid l (exec (run_call re_valid c) s)).
  rewrite IH.
  - rewrite run_call_current by done.
    by rewrite (annotations_for_cons g c l), effects_app.
  - by apply run_call_wf.
  - by apply run_call_unshared.
  - by apply run_call_targets.
  - by rewrite run_call_fn_mro.
Qed.

Lemma effect_commute a b m :
  field_of a ≠ field_of b →
  effect re_valid a (effect re_valid b m) = effect re_valid b (effect re_valid a m).
Proof.
  intros Hne.
  destruct a as [e|r fl|r fl|[l|x|l]], b as [e'|r' fl'|r' fl'|[l'|x'|l']];
    simpl in *; try done;
    unfold listen_to_effect, respond_to_effect;
    repeat match goal with
           | |- context [re_valid ?r ?fl] => destruct (re_valid r fl)
           end; reflexivity.
Qed.

End Sequences.

(** ** Further properties of the decorators *)

Section FurtherProperties.

Variable re_valid : string → Z → bool.

(** X1.  A metadata decorator applied to [f] leaves another object [g]
    exactly as it was (same own attributes, same result of [g.metadata],
    same [Metadata] contents) provided [g] is not a class deriving from [f]
    and [g.metadata] is not the instance [f.metadata] evaluates to. *)
Theorem decorating_leaves_other_callables_alone
    (a : annotation) (f g : func) (s : State) :
  wf s →
  g ≠ f →
  f ∉ fn_mro (obj s g) →
  (∀ p, lookup_metadata s f = Some p → lookup_metadata s g ≠ Some p) →
  let s' := exec (decorate (annotation_factory re_valid a) f) s in
  obj s' g = obj s g ∧
  lookup_metadata s' g = lookup_metadata s g ∧
  metadata_of s' g = metadata_of s g.
Proof.
  intros Hwf Hne Hmro Hsep s'.
  assert (Hlook : lookup_metadata s' g = lookup_metadata s g)
    by (by apply annotation_lookup_other).
  split; [by apply annotation_obj_other|]. split; [done|].
  by apply annotation_metadata_of_frame.
Qed.


(** X3.  No use of the module, metadata decorator or [on], changes an
    attribute other than [metadata] on any callable. *)
Theorem module_keeps_other_attributes (l : list call) (g : func) (s : State) :
  fn_dict (obj (run_calls re_valid l s) g) = fn_dict (obj s g).
Proof.
  revert s. induction l as [|c l IH]; intros s; simpl; [done|].
  rewrite IH. apply run_call_fn_dict.
Qed.

(** X4.  Two metadata decorators that write to different lists can be
    stacked in either order with the same result; two [process] decorators
    with different events cannot, the order shows in the list. *)
Theorem decorators_on_different_lists_commute
    (a b : annotation) (f : func) (s : State) :
  wf s →
  (field_of a ≠ field_of b →
   metadata_of (annotate_all re_valid [a; b] f s) f
   = metadata_of (annotate_all re_valid [b; a] f s) f ∧
   fn_metadata (obj (annotate_all re_valid [a; b] f s) f)
   = fn_metadata (obj (annotate_all re_valid [b; a] f s) f)) ∧
  (∀ e1 e2 : string, e1 ≠ e2 →
     process_of (annotate_all re_valid [ann_process e1; ann_process e2] f s) f
     ≠ process_of (annotate_all re_valid [ann_process e2; ann_process e1] f s) f).
Proof.
  intros Hwf.
  assert (Hpair : ∀ x y,
            fn_metadata (obj (annotate_all re_valid [x; y] f s) f)
            = Some (owner s f) ∧
            metadata_of (annotate_all re_valid [x; y] f s) f
            = Some (effect re_valid y (effect re_valid x (current s f)))).
  { intros x y.
    destruct (annotate_all_attached re_valid [y] f
                (exec (decorate (annotation_factory re_valid x) f) s)
                (owner s f) (effect re_valid x (current s f)))
      as (_ & Hp & Hm).
    - by apply annotation_wf.
    - apply annotation_fn_metadata.
    - by apply annotation_metadata_of.
    - done. }
  split.
  - intros Hne. destruct (Hpair a b) as [Hp1 Hm1], (Hpair b a) as [Hp2 Hm2].
    rewrite Hp1, Hp2, Hm1, Hm2. split; [|done].
    by rewrite effect_commute.
  - intros e1 e2 Hne.
    destruct (Hpair (ann_process e1) (ann_process e2)) as [_ Hm1].
    destruct (Hpair (ann_process e2) (ann_process e1)) as [_ Hm2].
    rewrite (process_of_Some _ _ _ Hm1), (process_of_Some _ _ _ Hm2). simpl.
    rewrite <- !app_assoc. intros Heq%app_inv_head. simpl in Heq. congruence.
Qed.

(** X5.  Whatever the module is used for afterwards, every [Metadata]
    instance keeps what its four lists held at their front, and so does
    every callable that is a function or has a [metadata] attribute of its
    own: what a list held stays at its front. *)
Theorem lists_only_grow (l : list call) (g : func) (s : State) :
  wf s →
  (∀ p m, heap s !! p = Some m →
          ∃ m', heap (run_calls re_valid l s) !! p = Some m' ∧ extends m m') ∧
  (fn_mro (obj s g) = [] ∨ is_Some (fn_metadata (obj s g)) →
   process_of s g `prefix_of` process_of (run_calls re_valid l s) g ∧
   listen_to_of s g `prefix_of` listen_to_of (run_calls re_valid l s) g ∧
   respond_to_of s g `prefix_of` respond_to_of (run_calls re_valid l s) g ∧
   required_settings_of s g
   `prefix_of` required_settings_of (run_calls re_valid l s) g).
Proof.
  intros Hwf. split; [intros p m; apply run_calls_heap_extends|].
  intros Hg.
  assert (Hnone : metadata_of s g = None →
            process_of s g = [] ∧ listen_to_of s g = [] ∧
            respond_to_of s g = [] ∧ required_settings_of s g = []).
  { intros Hmd. unfold process_of, listen_to_of, respond_to_of,
      required_settings_of. by rewrite Hmd. }
  destruct (fn_metadata (obj s g)) as [p|] eqn:Hown.
  - destruct (heap s !! p) as [m|] eqn:Hp.
    + destruct (run_calls_heap_extends re_valid l s p m Hp)
        as (m' & Hp' & E1 & E2 & E3 & E4).
      assert (Hmd : metadata_of s g = Some m).
      { unfold metadata_of. by rewrite (lookup_own _ _ _ Hown). }
      assert (Hmd' : metadata_of (run_calls re_valid l s) g = Some m').
      { unfold metadata_of.
        by rewrite (lookup_own _ _ _ (run_calls_fn_metadata re_valid l g s p Hown)). }
      by rewrite (process_of_Some _ _ _ Hmd), (listen_to_of_Some _ _ _ Hmd),
        (respond_to_of_Some _ _ _ Hmd), (required_settings_of_Some _ _ _ Hmd),
        (process_of_Some _ _ _ Hmd'), (listen_to_of_Some _ _ _ Hmd'),
        (respond_to_of_Some _ _ _ Hmd'), (required_settings_of_Some _ _ _ Hmd').
    + destruct Hnone as (-> & -> & -> & ->).
      { unfold metadata_of. by rewrite (lookup_own _ _ _ Hown). }
      repeat split; apply prefix_nil.
  - destruct Hg as [Hmro|[p Hp]]; [|done].
    destruct Hnone as (-> & -> & -> & ->).
    { unfold metadata_of. by rewrite lookup_function, Hown. }
    repeat split; apply prefix_nil.
Qed.


(** X7.  Used on functions, the module never makes two callables share a
    [Metadata]: if no two objects point to the same instance before, and
    every decorated target is an object without bases, none do after any
    sequence of uses (and every pointer still designates a live instance). *)
Theorem module_never_shares_metadata (l : list call) (s : State) :
  wf s → unshared s → targets_are_functions s l →
  wf (run_calls re_valid l s) ∧ unshared (run_calls re_valid l s).
Proof.
  revert s. induction l as [|c l IH]; intros s Hwf Hun Hfun; simpl; [done|].
  unfold targets_are_functions in Hfun. rewrite Forall_cons in Hfun.
  destruct Hfun as [Hc Hl].
  assert (Hc1 : targets_are_functions s [c])
    by (unfold targets_are_functions; by rewrite Forall_singleton).
  apply IH.
  - by apply run_call_wf.
  - by apply run_call_unshared.
  - by apply run_call_targets.
Qed.

(** X8.  When no two objects share a [Metadata] and the decorated targets
    are functions, decorations of different functions do not interfere
    however they are interleaved: after any sequence of uses, each of the
    four lists of a function is what it was, followed by what exactly the
    decorators applied to that function added to it, in the order they were
    applied. *)
Theorem interleaved_decorations_are_independent
    (l : list call) (g : func) (s : State) :
  wf s → unshared s → targets_are_functions s l → fn_mro (obj s g) = [] →
  process_of (run_calls re_valid l s) g
  = process_of s g ++ added_process (annotations_for g l) ∧
  listen_to_of (run_calls re_valid l s) g
  = listen_to_of s g ++ added_listen_to re_valid (annotations_for g l) ∧
  respond_to_of (run_calls re_valid l s) g
  = respond_to_of s g ++ added_respond_to re_valid (annotations_for g l) ∧
  required_settings_of (run_calls re_valid l s) g
  = required_settings_of s g ++ added_required_settings (annotations_for g l).
Proof.
  intros Hwf Hun Hfun Hg.
  pose proof (run_calls_current re_valid l g s Hwf Hun Hfun Hg) as Hcur.
  destruct (effects_lists re_valid (annotations_for g l) (current s g))
    as (L1 & L2 & L3 & L4).
  rewrite !process_of_current, !listen_to_of_current, !respond_to_of_current,
    !required_settings_of_current, Hcur.
  done.
Qed.

End FurtherProperties.

Section FurtherEdges.

Variable re_valid : string → Z → bool.



(** X9.  Flags passed explicitly replace the default: the pattern is
    compiled with exactly those flags, [re.IGNORECASE] is not added, and
    only the pattern's validity under those flags matters. *)
Theorem explicit_flags_replace_the_default
    (r : string) (fl : Z) (f : func) (s : State) :
  wf s →
  re_valid r fl = true →
  (result (decorate (listen_to re_valid r (Some fl)) f) s = Return f ∧
   listen_to_of (exec (decorate (listen_to re_valid r (Some fl)) f) s) f
   = listen_to_of s f ++ [mkPattern r fl]) ∧
  (result (decorate (respond_to re_valid r (Some fl)) f) s = Return f ∧
   respond_to_of (exec (decorate (respond_to re_valid r (Some fl)) f) s) f
   = respond_to_of s f ++ [mkPattern r fl]).
Proof.
  intros Hwf Hv. split; split.
  - change (result (listen_to_decorator re_valid r fl f) s = Return f).
    by rewrite listen_to_decorator_result, Hv.
  - change (listen_to_of (exec (listen_to_decorator re_valid r fl f) s) f
            = listen_to_of s f ++ [mkPattern r fl]).
    rewrite (listen_to_of_Some _ _ _
               (listen_to_decorator_metadata_of re_valid _ _ _ _ Hwf)).
    unfold listen_to_effect. rewrite Hv. simpl. by rewrite listen_to_of_current.
  - change (result (respond_to_decorator re_valid r fl f) s = Return f).
    by rewrite respond_to_decorator_result, Hv.
  - change (respond_to_of (exec (respond_to_decorator re_valid r fl f) s) f
            = respond_to_of s f ++ [mkPattern r fl]).
    rewrite (respond_to_of_Some _ _ _
               (respond_to_decorator_metadata_of re_valid _ _ _ _ Hwf)).
    unfold respond_to_effect. rewrite Hv. simpl. by rewrite respond_to_of_current.
Qed.

(** X10.  [required_settings] with an empty list adds no setting but still
    marks the target: afterwards the target has a [metadata] attribute, a
    new empty [Metadata] if [f.metadata] did not resolve, with the contents
    it had otherwise.  A single string is appended whole, exactly as the
    one-element list holding it would be. *)
Theorem required_settings_empty_list_still_attaches (f : func) (s : State) :
  wf s →
  let s' := exec (decorate (required_settings (settings_list [])) f) s in
  fn_metadata (obj s' f) = Some (owner s f) ∧
  metadata_of s' f = Some (current s f) ∧
  (lookup_metadata s f = None → metadata_of s' f = Some new_Metadata) ∧
  (∀ x : string,
      exec (decorate (required_settings (settings_str x)) f) s
      = exec (decorate (required_settings (settings_list [x])) f) s).
Proof.
  intros Hwf s'.
  assert (Hm : metadata_of s' f = Some (current s f)).
  { subst s'. rewrite required_settings_list_annotate.
    rewrite annotate_metadata_of by done. f_equal.
    unfold extend_required_settings. rewrite app_nil_r.
    by destruct (current s f). }
  split; [subst s'; rewrite required_settings_list_annotate;
          apply annotate_fn_metadata|].
  split; [done|]. split; [|reflexivity].
  intros Hnone. rewrite Hm. unfold current, metadata_of. by rewrite Hnone.
Qed.

(** X11.  The default [Metadata()] is an argument of [getattr], so one is
    built on every application: the decorator adds exactly one instance to
    the heap, and when the target already has a [Metadata] that new
    instance stays empty and no callable points to it. *)
Theorem default_metadata_is_built_on_every_application
    (a : annotation) (f : func) (s : State) (p : loc) :
  wf s →
  fn_metadata (obj s f) = Some p →
  let s' := exec (decorate (annotation_factory re_valid a) f) s in
  let d := fresh (dom (heap s)) in
  (d ∉ dom (heap s)) ∧
  dom (heap s') = {[d]} ∪ dom (heap s) ∧
  heap s' !! d = Some new_Metadata ∧
  (∀ g, fn_metadata (obj s' g) ≠ Some d).
Proof.
  intros Hwf Hp s' d.
  pose proof (lookup_own _ _ _ Hp) as Hlook.
  assert (Hpd : p ≠ d) by (by eapply wf_not_fresh).
  split; [apply is_fresh|]. split; [apply annotation_dom|]. split.
  - subst s'. rewrite annotation_exec, mutate_heap_other.
    + rewrite attach_heap. apply lookup_insert_eq.
    + rewrite attach_lookup. unfold owner. rewrite Hlook. simpl. congruence.
  - intros g. subst s'. destruct (decide (g = f)) as [->|Hne].
    + rewrite annotation_fn_metadata. unfold owner. rewrite Hlook. simpl.
      congruence.
    + rewrite annotation_obj_other by done.
      intros Hg. by apply (wf_not_fresh s g d Hwf (lookup_own _ _ _ Hg)).
Qed.

(** X12.  Registering a listener for one event leaves the listeners of
    every other event as they were, and the metadata decorators leave the
    listeners of every event as they were. *)
Theorem on_keeps_other_events_apart
    (n m : string) (f : func) (s : State) :
  m ≠ n →
  listeners (exec (decorate (on n) f) s) m = listeners s m ∧
  (∀ a g, listeners (exec (decorate (annotation_factory re_valid a) g) s) m
          = listeners s m).
Proof.
  intros Hne. split.
  - rewrite (listeners_snoc s _ m n f) by reflexivity.
    rewrite decide_False by done. apply app_nil_r.
  - intros a g. unfold listeners. by rewrite annotation_ee.
Qed.


End FurtherEdges.

(** ** The further properties at concrete inputs *)

Lemma unshared_init : unshared init.
Proof. intros f g p Hf. unfold obj in Hf. simpl in Hf. by rewrite lookup_empty in Hf. Qed.

Lemma wf_sample_decorated : wf sample_decorated.
Proof. apply wfb_wf. vm_compute. reflexivity. Qed.


Lemma wf_sample_base_decorated : wf sample_base_decorated.
Proof. apply wfb_wf. vm_compute. reflexivity. Qed.

(** On a diamond the lists a class inherits can be replaced: class 3 reads
    the list of class 1 until class 2, which comes first in its [__mro__],
    is decorated. *)
Example inherited_lists_can_be_replaced :
  process_of sample_diamond 3%positive = ["message"%string] ∧
  process_of (exec (decorate (process "hello") 2%positive) sample_diamond)
    3%positive
  = ["hello"%string].
Proof. split; vm_compute; reflexivity. Qed.

Lemma decorating_leaves_other_callables_alone_witness :
  wf sample_base_decorated ∧ 2%positive ≠ 3%positive ∧
  (3%positive ∉ fn_mro (obj sample_base_decorated 2%positive)) ∧
  lookup_metadata sample_base_decorated 3%positive = None ∧
  metadata_of
    (exec (decorate (annotation_factory sample_re_valid (ann_listen_to "bye" None))
             3%positive) sample_base_decorated) 2%positive
  = metadata_of sample_base_decorated 2%positive.
Proof.
  assert (Hmro : 3%positive ∉ fn_mro (obj sample_base_decorated 2%positive)).
  { change (3%positive ∉ [1%positive]).
    intros Hin. apply list_elem_of_singleton in Hin. discriminate. }
  split; [exact wf_sample_base_decorated|]. split; [discriminate|].
  split; [exact Hmro|]. split; [reflexivity|].
  apply (decorating_leaves_other_callables_alone sample_re_valid
           (ann_listen_to "bye" None) 3%positive 2%positive sample_base_decorated
           wf_sample_base_decorated).
  - discriminate.
  - exact Hmro.
  - intros p Hp. vm_compute in Hp. discriminate.
Defined.


Lemma decorators_on_different_lists_commute_witness :
  wf init ∧
  metadata_of
    (annotate_all sample_re_valid
       [ann_process "message"; ann_required_settings (settings_str "TOKEN")]
       1%positive init) 1%positive
  = metadata_of
      (annotate_all sample_re_valid
         [ann_required_settings (settings_str "TOKEN"); ann_process "message"]
         1%positive init) 1%positive.
Proof.
  split; [exact wf_init|].
  apply (decorators_on_different_lists_commute sample_re_valid
           (ann_process "message") (ann_required_settings (settings_str "TOKEN"))
           1%positive init wf_init).
  discriminate.
Defined.

Lemma lists_only_grow_witness :
  wf sample_decorated ∧
  is_Some (fn_metadata (obj sample_decorated 1%positive)) ∧
  process_of sample_decorated 1%positive
  `prefix_of` process_of
    (run_calls sample_re_valid
       [call_annotate (ann_process "hello") 1%positive;
        call_annotate (ann_listen_to "(" None) 1%positive;
        call_on "shutdown" 1%positive] sample_decorated) 1%positive.
Proof.
  assert (Hown : is_Some (fn_metadata (obj sample_decorated 1%positive)))
    by (exists (owner init 1%positive); reflexivity).
  split; [exact wf_sample_decorated|]. split; [exact Hown|].
  apply (lists_only_grow sample_re_valid
           [call_annotate (ann_process "hello") 1%positive;
            call_annotate (ann_listen_to "(" None) 1%positive;
            call_on "shutdown" 1%positive] 1%positive sample_decorated
           wf_sample_decorated).
  right. exact Hown.
Defined.


Lemma sample_targets_are_functions :
  targets_are_functions init
    [call_annotate (ann_process "message") 1%positive;
     call_annotate (ann_process "hello") 2%positive;
     call_on "shutdown" 1%positive;
     call_annotate (ann_listen_to "bye" None) 1%positive].
Proof. repeat constructor. Qed.

Lemma module_never_shares_metadata_witness :
  wf init ∧ unshared init ∧
  unshared
    (run_calls sample_re_valid
       [call_annotate (ann_process "message") 1%positive;
        call_annotate (ann_process "hello") 2%positive;
        call_on "shutdown" 1%positive;
        call_annotate (ann_listen_to "bye" None) 1%positive] init).
Proof.
  split; [exact wf_init|]. split; [exact unshared_init|].
  apply (module_never_shares_metadata sample_re_valid
           [call_annotate (ann_process "message") 1%positive;
            call_annotate (ann_process "hello") 2%positive;
            call_on "shutdown" 1%positive;
            call_annotate (ann_listen_to "bye" None) 1%positive] init
           wf_init unshared_init sample_targets_are_functions).
Defined.

Lemma interleaved_decorations_are_independent_witness :
  wf init ∧ unshared init ∧ fn_mro (obj init 1%positive) = [] ∧
  listen_to_of
    (run_calls sample_re_valid
       [call_annotate (ann_process "message") 1%positive;
        call_annotate (ann_process "hello") 2%positive;
        call_on "shutdown" 1%positive;
        call_annotate (ann_listen_to "bye" None) 1%positive] init) 1%positive
  = [mkPattern "bye" re_IGNORECASE].
Proof.
  split; [exact wf_init|]. split; [exact unshared_init|]. split; [reflexivity|].
  apply (interleaved_decorations_are_independent sample_re_valid
           [call_annotate (ann_process "message") 1%positive;
            call_annotate (ann_process "hello") 2%positive;
            call_on "shutdown" 1%positive;
            call_annotate (ann_listen_to "bye" None) 1%positive] 1%positive init
           wf_init unshared_init sample_targets_are_functions eq_refl).
Defined.

Lemma explicit_flags_replace_the_default_witness :
  wf init ∧ sample_re_valid "hello" 0 = true ∧
  listen_to_of
    (exec (decorate (listen_to sample_re_valid "hello" (Some 0)) 1%positive) init)
    1%positive
  = [mkPattern "hello" 0].
Proof.
  split; [exact wf_init|]. split; [reflexivity|].
  apply (explicit_flags_replace_the_default sample_re_valid "hello" 0
           1%positive init wf_init eq_refl).
Defined.

Lemma required_settings_empty_list_still_attaches_witness :
  wf init ∧
  metadata_of
    (exec (decorate (required_settings (settings_list [])) 1%positive) init)
    1%positive
  = Some new_Metadata.
Proof.
  split; [exact wf_init|].
  apply (required_settings_empty_list_still_attaches 1%positive init wf_init).
  reflexivity.
Defined.

Lemma default_metadata_is_built_on_every_application_witness :
  wf sample_decorated ∧
  fn_metadata (obj sample_decorated 1%positive) = Some (owner init 1%positive) ∧
  heap (exec (decorate (annotation_factory sample_re_valid (ann_process "hello"))
                1%positive) sample_decorated)
    !! fresh (dom (heap sample_decorated))
  = Some new_Metadata.
Proof.
  split; [exact wf_sample_decorated|]. split; [reflexivity|].
  apply (default_metadata_is_built_on_every_application sample_re_valid
           (ann_process "hello") 1%positive sample_decorated
           (owner init 1%positive) wf_sample_decorated eq_refl).
Defined.

Lemma on_keeps_other_events_apart_witness :
  "startup"%string ≠ "shutdown"%string ∧
  listeners (exec (decorate (on "shutdown") 1%positive) init) "startup" = [].
Proof.
  split; [discriminate|].
  apply (on_keeps_other_events_apart sample_re_valid "shutdown" "startup"
           1%positive init).
  discriminate.
Defined.

